(** * MarkovRanking: the SQLite datastore of co-occurrence relations and the
      ingestion of rated lines (src/MarkovRanking.py).

    The development embeds the two classes of the script:
    - [DataModule], the datastore: two tables, [elements] and [relations],
      reached through one connection and one cursor;
    - [MarkovRatingSystem], whose [feedLine] walks a rated list and creates
      or increments one relation per ordered pair of different items.

    Modelling choices.
    - A table is the list of its rows in rowid order.
    - The INTEGER columns hold [Z].  An integer a caller passes ([count],
      [increment]) is bound to its statement only if it is within the 64
      bits of an SQLite INTEGER ([Sql.int64]); outside them the sqlite3
      module raises OverflowError and the statement does not run.  The ids
      and counts in the tables are taken to stay within those 64 bits (past
      them SQLite stores a REAL, which [Z] does not hold): a theorem on the
      result of [count + increment] carries that bound as a hypothesis.
    - The REAL columns hold values of a type [R] that is a parameter, with
      the arithmetic the script uses on it ([RealOps]); nothing is assumed
      about that arithmetic unless a theorem says so, so the results hold
      for the rounding arithmetic of binary64.  A rating is a value of [R]:
      a rating that the sqlite3 module binds together with its square, that
      is a float, or an integer whose square is within the 64 bits (such an
      integer and its square are the same REAL values whether Python or
      SQLite computes them).  An integer rating whose square is outside
      them makes the first statement that binds it raise OverflowError;
      such ratings are not values of [R].
    - A database is seen twice: as committed in the file, and as seen through
      the connection, which includes the pending transaction.
    - Methods run in a state monad over the [DataModule] object; a failing
      statement yields [Raise] and leaves the tables as they were and the
      cursor without rows. *)

From Stdlib Require Import String ZArith List Bool Lia Arith Permutation.
Import ListNotations.
Open Scope string_scope.
Open Scope list_scope.
Open Scope Z_scope.

Set Implicit Arguments.

(** ** SQL values and the arithmetic of REAL columns *)

(** [R] holds the REAL values of SQLite, and the ratings a caller passes:
    floats, and integers whose square is within the 64 bits of an INTEGER
    (see the head of the file). *)
Class RealOps (R : Type) : Type := {
  (** [+] of SQLite on two REAL values *)
  radd : R -> R -> R;
  (** [rating*rating] of Python, as bound to a REAL column *)
  rmul : R -> R -> R;
  (** the aggregate [sum()] over the REAL values of at least one row *)
  rsum : list R -> R;
  (** REAL [/] INTEGER; [None] is NULL, the result on a zero divisor *)
  rdiv : R -> Z -> option R
}.

Inductive sqlval (R : Type) : Type :=
| SqlNull
| SqlInt (z : Z)
| SqlReal (r : R)
| SqlText (s : string).
Arguments SqlNull {R}.
Arguments SqlInt {R} z.
Arguments SqlReal {R} r.
Arguments SqlText {R} s.

(** A row of [elements(class TEXT UNIQUE, id INTEGER PRIMARY KEY AUTOINCREMENT)]. *)
Record element_row : Type := mkElement {
  e_class : string;
  e_id : Z
}.

(** A row of [relations(class, id, count, rating_sum, rating_sum_squares,
    parent_id)]; [parent_id] is nullable (the insert binds whatever
    [getRootElementId] returned, and foreign keys are not enforced). *)
Record relation_row (R : Type) : Type := mkRelation {
  r_class : string;
  r_id : Z;
  r_count : Z;
  r_rating_sum : R;
  r_rating_sum_squares : R;
  r_parent_id : option Z
}.

Record tables (R : Type) : Type := mkTables {
  elements : list element_row;
  relations : list (relation_row R)
}.

Definition no_tables {R : Type} : tables R := mkTables [] [].

(** Exceptions of the sqlite3 module that the statements of the script can
    raise. *)
Inductive exn : Type :=
| IntegrityError
| OverflowError.

Inductive outcome (A : Type) : Type :=
| Ok (a : A)
| Raise (e : exn).
Arguments Ok {A} a.
Arguments Raise {A} e.

(** Values a method hands back to Python when the translation needs to tell
    [None] from a proper result. *)
Inductive pyobj (R : Type) : Type :=
| PyNone
| PyBool (b : bool)
| PyFloat (r : R).
Arguments PyNone {R}.
Arguments PyBool {R} b.
Arguments PyFloat {R} r.

(** Truth value of Python, as used by [if] and [not]. *)
Definition truthy {R : Type} (v : pyobj R) : bool :=
  match v with
  | PyNone => false
  | PyBool b => b
  | PyFloat _ => true
  end.

(** ** The SQL statements of the script, as functions on the tables *)

Module Sql.
Section Statements.
Context {R : Type} {ops : RealOps R}.

(** [=] of SQL on nullable integers: never true on NULL. *)
Definition eq_int (a b : option Z) : bool :=
  match a, b with
  | Some x, Some y => Z.eqb x y
  | _, _ => false
  end.

(** The range of an SQLite INTEGER, the one a Python int must be in to be
    bound as a parameter. *)
Definition int64 (z : Z) : bool :=
  (- 2 ^ 63 <=? z) && (z <? 2 ^ 63).

(** AUTOINCREMENT: one more than the largest id the table ever held.  No
    statement of the script deletes a single row, so that is the largest id
    in the table. *)
Definition next_id (ids : list Z) : Z := 1 + fold_right Z.max 0 ids.

Definition element_cols (e : element_row) : list (sqlval R) :=
  [SqlText (e_class e); SqlInt (e_id e)].

Definition opt_int (o : option Z) : sqlval R :=
  match o with
  | Some z => SqlInt z
  | None => SqlNull
  end.

Definition relation_cols (r : relation_row R) : list (sqlval R) :=
  [SqlText (r_class r); SqlInt (r_id r); SqlInt (r_count r);
   SqlReal (r_rating_sum r); SqlReal (r_rating_sum_squares r);
   opt_int (r_parent_id r)].

(** [... FROM elements WHERE class=(?)] *)
Definition elements_where_class (t : tables R) (name : string) : list element_row :=
  filter (fun e => String.eqb (e_class e) name) (elements t).

(** [SELECT * FROM elements WHERE class=(?)] *)
Definition select_element (name : string) (t : tables R) : list (list (sqlval R)) :=
  map element_cols (elements_where_class t name).

(** [SELECT id FROM elements WHERE class=(?)] *)
Definition select_element_id (name : string) (t : tables R) : list (list (sqlval R)) :=
  map (fun e => [SqlInt (e_id e)]) (elements_where_class t name).

(** [relations JOIN elements ON relations.parent_id=elements.id
    WHERE elements.class=(?)]: the relation rows of the join. *)
Definition join_children (t : tables R) (parent : string) : list (relation_row R) :=
  flat_map
    (fun e => filter (fun r => eq_int (r_parent_id r) (Some (e_id e))) (relations t))
    (elements_where_class t parent).

(** The query of [getChildren]. *)
Definition select_children (parent : string) (t : tables R) : list (list (sqlval R)) :=
  map (fun r => [SqlText (r_class r); SqlInt (r_count r);
                 SqlReal (r_rating_sum r); SqlReal (r_rating_sum_squares r)])
      (join_children t parent).

(** The join of [getChildId], with [relations.class=(?)] as well. *)
Definition join_child (t : tables R) (parent child : string) : list (relation_row R) :=
  filter (fun r => String.eqb (r_class r) child) (join_children t parent).

(** The query of [getChildId]. *)
Definition select_child_id (child parent : string) (t : tables R) : list (list (sqlval R)) :=
  map (fun r => [SqlInt (r_id r)]) (join_child t parent child).

(** [SELECT * FROM relations WHERE class=? AND parent_id=?] *)
Definition select_relation (child : string) (parent_id : option Z) (t : tables R)
  : list (list (sqlval R)) :=
  map relation_cols
      (filter (fun r => String.eqb (r_class r) child && eq_int (r_parent_id r) parent_id)
              (relations t)).

(** The query of [computeRating]: one row, [sum(rating_sum)/sum(count)] over
    the join; both aggregates are NULL over no rows. *)
Definition select_rating (element : string) (t : tables R) : list (list (sqlval R)) :=
  match join_children t element with
  | [] => [[SqlNull]]
  | rows =>
      match rdiv (rsum (map (@r_rating_sum R) rows))
                 (fold_right Z.add 0 (map (@r_count R) rows)) with
      | Some q => [[SqlReal q]]
      | None => [[SqlNull]]
      end
  end.

(** [INSERT INTO elements VALUES (?,NULL)]; [class] is UNIQUE. *)
Definition insert_element (name : string) (t : tables R) : outcome (tables R) :=
  if existsb (fun e => String.eqb (e_class e) name) (elements t)
  then Raise IntegrityError
  else Ok (mkTables
             (elements t ++ [mkElement name (next_id (map e_id (elements t)))])
             (relations t)).

(** [INSERT INTO relations VALUES (?,NULL,?,?,?,?)]; the table has no
    constraint besides its primary key. *)
Definition insert_relation (name : string) (count : Z) (rating_sum rating_sum_squares : R)
    (parent_id : option Z) (t : tables R) : tables R :=
  mkTables (elements t)
           (relations t ++
              [mkRelation name (next_id (map (@r_id R) (relations t))) count
                          rating_sum rating_sum_squares parent_id]).

(** [UPDATE relations SET ... WHERE id=(?) AND parent_id=(?)] *)
Definition update_relations (assign : relation_row R -> relation_row R)
    (child_id parent_id : option Z) (t : tables R) : tables R :=
  mkTables (elements t)
           (map (fun r =>
                   if eq_int (Some (r_id r)) child_id && eq_int (r_parent_id r) parent_id
                   then assign r else r)
                (relations t)).

(** [SET count=(?), rating_sum=(?), rating_sum_squares=(?)] *)
Definition set_all (count : Z) (rating_sum rating_sum_squares : R) (r : relation_row R)
  : relation_row R :=
  mkRelation (r_class r) (r_id r) count rating_sum rating_sum_squares (r_parent_id r).

(** [SET count=count+(?)]; the sum is an INTEGER as long as it is within
    the 64 bits, which is where [Z] stands for the column. *)
Definition set_count_plus (increment : Z) (r : relation_row R) : relation_row R :=
  mkRelation (r_class r) (r_id r) (r_count r + increment)
             (r_rating_sum r) (r_rating_sum_squares r) (r_parent_id r).

(** [SET rating_sum=rating_sum+(?), rating_sum_squares=rating_sum_squares+(?)] *)
Definition set_rating_plus (rating rating_squared : R) (r : relation_row R) : relation_row R :=
  mkRelation (r_class r) (r_id r) (r_count r)
             (radd (r_rating_sum r) rating)
             (radd (r_rating_sum_squares r) rating_squared) (r_parent_id r).

(** [SET count=count+(?), rating_sum=rating_sum+(?),
    rating_sum_squares=rating_sum_squares+(?)]; the count as for
    [set_count_plus]. *)
Definition set_all_plus (increment : Z) (rating rating_squared : R) (r : relation_row R)
  : relation_row R :=
  mkRelation (r_class r) (r_id r) (r_count r + increment)
             (radd (r_rating_sum r) rating)
             (radd (r_rating_sum_squares r) rating_squared) (r_parent_id r).

(** [DROP TABLE IF EXISTS elements]; the [CREATE TABLE elements] that follows
    it makes the table anew, with no rows. *)
Definition drop_elements (t : tables R) : tables R := mkTables [] (relations t).

(** [DROP TABLE IF EXISTS relations], likewise. *)
Definition drop_relations (t : tables R) : tables R := mkTables (elements t) [].

End Statements.
End Sql.

(** ** DataModule: the datastore object *)

Module DataModule.

(** The object: [file] is what the database file holds (what another
    connection reads), [conn] what this connection sees (the file and the
    pending transaction), [cur] the rows waiting on the cursor [self.c]. *)
Record t (R : Type) : Type := mk {
  file : tables R;
  conn : tables R;
  cur : list (list (sqlval R))
}.

Section Methods.
Context {R : Type} {ops : RealOps R}.

(** A method: it runs on the object and returns or raises. *)
Definition M (A : Type) : Type := t R -> outcome A * t R.

Definition ret {A : Type} (a : A) : M A := fun dm => (Ok a, dm).

Definition bind {A B : Type} (m : M A) (k : A -> M B) : M B :=
  fun dm =>
    match m dm with
    | (Ok a, dm') => k a dm'
    | (Raise e, dm') => (Raise e, dm')
    end.

Notation "x <- m ;; k" := (bind m (fun x => k))
  (at level 61, m at next level, right associativity).
Notation "m ;; k" := (bind m (fun _ => k))
  (at level 61, right associativity).

(** [for x in xs: body(x)] *)
Fixpoint for_each {A : Type} (xs : list A) (body : A -> M unit) : M unit :=
  match xs with
  | [] => ret tt
  | x :: xs' => body x ;; for_each xs' body
  end.

(** [self.c.execute] of a SELECT: its rows wait on the cursor. *)
Definition execute_select (q : tables R -> list (list (sqlval R))) : M unit :=
  fun dm => (Ok tt, mk (file dm) (conn dm) (q (conn dm))).

(** [self.c.execute] of an INSERT or UPDATE that no constraint can refuse;
    [bound] are the integers the caller passed among its parameters.  The
    cursor is reset first; then the parameters are bound, and an integer
    outside the 64 bits raises OverflowError before the statement runs;
    else the change stays in the transaction. *)
Definition execute_write (bound : list Z) (u : tables R -> tables R) : M unit :=
  fun dm =>
    if forallb Sql.int64 bound
    then (Ok tt, mk (file dm) (u (conn dm)) [])
    else (Raise OverflowError, mk (file dm) (conn dm) []).

(** [self.c.execute] of a DROP or CREATE: the sqlite3 module commits what
    is pending before such a statement, and the statement is written to the
    file at once. *)
Definition execute_ddl (u : tables R -> tables R) : M unit :=
  fun dm => (Ok tt, mk (u (conn dm)) (u (conn dm)) []).

(** [self.c.execute] of a statement that a constraint may refuse: the
    cursor is reset before the statement runs, so it has no rows either
    way. *)
Definition execute_checked (u : tables R -> outcome (tables R)) : M unit :=
  fun dm =>
    match u (conn dm) with
    | Ok t' => (Ok tt, mk (file dm) t' [])
    | Raise e => (Raise e, mk (file dm) (conn dm) [])
    end.

(** [self.c.fetchone()]: the next row, or [None]. *)
Definition fetchone : M (option (list (sqlval R))) :=
  fun dm =>
    match cur dm with
    | [] => (Ok None, dm)
    | row :: rest => (Ok (Some row), mk (file dm) (conn dm) rest)
    end.

(** [self.c.fetchall()] *)
Definition fetchall : M (list (list (sqlval R))) :=
  fun dm => (Ok (cur dm), mk (file dm) (conn dm) []).

(** [try: return int(self.c.fetchone()[0]) / except: return None] *)
Definition fetch_int : M (option Z) :=
  row <- fetchone ;;
  ret (match row with
       | Some (SqlInt i :: _) => Some i
       | _ => None
       end).

Definition commit : M unit :=
  fun dm => (Ok tt, mk (conn dm) (conn dm) (cur dm)).

(** The two DROP TABLE, the two CREATE TABLE, the CREATE INDEX and the
    commit; a table just created has no rows, and an index has none of its
    own. *)
Definition create_tables : M unit :=
  execute_ddl Sql.drop_elements ;;
  execute_ddl Sql.drop_relations ;;
  execute_ddl (fun t => t) ;;
  execute_ddl (fun t => t) ;;
  execute_ddl (fun t => t) ;;
  commit.

(** [DataModule(database)]: connect to the file, take a cursor, create the
    tables. *)
Definition init (database : tables R) : t R :=
  snd (create_tables (mk database database [])).

Definition existsRootElement (name : string) : M bool :=
  execute_select (Sql.select_element name) ;;
  check <- fetchone ;;
  ret (match check with Some _ => true | None => false end).

Definition getRootElementId (name : string) : M (option Z) :=
  execute_select (Sql.select_element_id name) ;;
  fetch_int.

Definition getChildren (parent : string) : M (list (list (sqlval R))) :=
  execute_select (Sql.select_children parent) ;;
  fetchall.

(** No [return]: the method hands back [None]. *)
Definition existsChildElement (parent child : string) : M (pyobj R) :=
  parent_id <- getRootElementId parent ;;
  execute_select (Sql.select_relation child parent_id) ;;
  ret PyNone.

Definition addRootElement (name : string) : M unit :=
  execute_checked (Sql.insert_element name).

Definition addRelatedElement (parent name : string) (count : Z) (rating : R) : M unit :=
  parent_id <- getRootElementId parent ;;
  execute_write [count]
    (Sql.insert_relation name count rating (rmul rating rating) parent_id).

Definition getChildId (parent child : string) : M (option Z) :=
  execute_select (Sql.select_child_id child parent) ;;
  fetch_int.

Definition updateChild (parent child : string) (count : Z) (rating : R) : M unit :=
  parent_id <- getRootElementId parent ;;
  child_id <- getChildId parent child ;;
  execute_write [count]
    (Sql.update_relations (Sql.set_all count rating (rmul rating rating)) child_id parent_id).

Definition updateChildCount (parent child : string) (increment : Z) : M unit :=
  parent_id <- getRootElementId parent ;;
  child_id <- getChildId parent child ;;
  execute_write [increment]
    (Sql.update_relations (Sql.set_count_plus increment) child_id parent_id).

Definition updateChildRating (parent child : string) (rating : R) : M unit :=
  parent_id <- getRootElementId parent ;;
  child_id <- getChildId parent child ;;
  execute_write []
    (Sql.update_relations (Sql.set_rating_plus rating (rmul rating rating)) child_id parent_id).

Definition incrementChild (parent child : string) (increment : Z) (rating : R) : M unit :=
  parent_id <- getRootElementId parent ;;
  child_id <- getChildId parent child ;;
  execute_write [increment]
    (Sql.update_relations (Sql.set_all_plus increment rating (rmul rating rating))
                          child_id parent_id).

(** No [fetch], no [return]: the quotient stays on the cursor and the
    method hands back [None]. *)
Definition computeRating (element : string) : M (pyobj R) :=
  execute_select (Sql.select_rating element) ;;
  ret PyNone.

End Methods.

Arguments M R A : clear implicits.

End DataModule.

(** ** MarkovRatingSystem: feeding rated lines *)

Module MarkovRatingSystem.
Section Methods.
Context {R : Type} {ops : RealOps R}.

Import DataModule.

Notation "x <- m ;; k" := (bind m (fun x => k))
  (at level 61, m at next level, right associativity).
Notation "m ;; k" := (bind m (fun _ => k))
  (at level 61, right associativity).

Definition isRootElement (element : string) : M R bool :=
  DataModule.existsRootElement element.

Definition addNewRootElement (element : string) : M R unit :=
  DataModule.addRootElement element.

(** [names = [x[0] for x in childlist]; return relatedElement in names] *)
Definition isChildOf (element relatedElement : string) : M R bool :=
  childlist <- DataModule.getChildren element ;;
  ret (existsb (fun name => match name with
                            | SqlText s => String.eqb relatedElement s
                            | _ => false
                            end)
               (map (fun x => hd SqlNull x) childlist)).

Definition addRelatedElement (parent childName : string) (childCount : Z) (childRating : R)
  : M R unit :=
  DataModule.addRelatedElement parent childName childCount childRating.

Definition incrementRelatedElementCount (parent childName : string) (increment : Z) : M R unit :=
  DataModule.updateChildCount parent childName increment.

Definition updateRelatedElementRating (parent childName : string) (rating : R) : M R unit :=
  DataModule.updateChildRating parent childName rating.

Definition incrementRelatedBoth (parent childName : string) (increment : Z) (rating : R)
  : M R unit :=
  DataModule.incrementChild parent childName increment rating.

Definition commit : M R unit := DataModule.commit.

(** The body of the inner loop of [feedLine]. *)
Definition feedPair (rating : R) (x y : string) : M R unit :=
  if negb (String.eqb x y) then
    related <- isChildOf x y ;;
    if negb related
    then addRelatedElement x y 1 rating
    else incrementRelatedBoth x y 1 rating
  else ret tt.

Definition feedLine (rating : R) (relationList : list string) : M R unit :=
  for_each relationList (fun x =>
    known <- isRootElement x ;;
    (if negb known then addNewRootElement x else ret tt) ;;
    for_each relationList (fun y => feedPair rating x y)).

(** The loop of [test1]: [for line in testDataSet: markov.feedLine(line[0],line[1:])]. *)
Definition feedLines (lines : list (R * list string)) : M R unit :=
  for_each lines (fun line => feedLine (fst line) (snd line)).

End Methods.
End MarkovRatingSystem.

(** ** Views of the tables and the invariants of the datastore *)

Section Views.
Context {R : Type} {ops : RealOps R}.

(** The statistics of a relation: count, rating_sum, rating_sum_squares. *)
Definition stats : Type := (Z * R * R)%type.

Definition row_stats (r : relation_row R) : stats :=
  (r_count r, r_rating_sum r, r_rating_sum_squares r).

(** The columns of a relation row that no UPDATE of the script assigns. *)
Definition row_key (r : relation_row R) : Z * string * option Z :=
  (r_id r, r_class r, r_parent_id r).

(** What [getRootElementId] reads: the id of the first row named [name]. *)
Definition root_id (t : tables R) (name : string) : option Z :=
  option_map e_id (hd_error (Sql.elements_where_class t name)).

(** What [getChildId] reads: the id of the first row of the join. *)
Definition child_id (t : tables R) (parent child : string) : option Z :=
  option_map (@r_id R) (hd_error (Sql.join_child t parent child)).

(** The edge from [parent] to [child]: the statistics of the rows named
    [child] among those [getChildren parent] returns.  No row: the edge is
    absent.  One row: the edge.  More rows: the pair was inserted twice. *)
Definition edge (t : tables R) (parent child : string) : list stats :=
  map row_stats (Sql.join_child t parent child).

(** An UPDATE that finds its row changes the first row of the edge. *)
Definition on_first {A : Type} (f : A -> A) (l : list A) : list A :=
  match l with
  | [] => []
  | a :: rest => f a :: rest
  end.

(** One observation of a pair, as [feedLine] records it: the first creates
    the relation with count 1, a later one adds to its first row. *)
Definition observe (rating : R) (e : list stats) : list stats :=
  match e with
  | [] => [(1, rating, rmul rating rating)]
  | (n, s, q) :: rest => (n + 1, radd s rating, radd q (rmul rating rating)) :: rest
  end.

(** How many times [x] and [y] meet in a line: every occurrence of [x] with
    every occurrence of [y]. *)
Definition meetings (x y : string) (line : list string) : nat :=
  (count_occ string_dec line x * count_occ string_dec line y)%nat.

(** The same over the lines fed. *)
Definition cooccurrences (x y : string) (lines : list (R * list string)) : nat :=
  fold_right (fun line n => (meetings x y (snd line) + n)%nat) 0%nat lines.

(** The edge two different items have after [lines], read off the lines. *)
Definition edge_of_lines (x y : string) (lines : list (R * list string)) : list stats :=
  fold_left (fun e line => Nat.iter (meetings x y (snd line)) (observe (fst line)) e)
            lines [].

(** An edge that was observed [n] times since it was absent. *)
Definition counted (n : nat) (e : list stats) : Prop :=
  match n with
  | O => e = []
  | S _ => exists s q, e = [(Z.of_nat n, s, q)]
  end.

(** The statistics of [k+1] observations at one rating. *)
Fixpoint tally (rating : R) (k : nat) : stats :=
  match k with
  | O => (1, rating, rmul rating rating)
  | S k' =>
      let '(n, s, q) := tally rating k' in
      (n + 1, radd s rating, radd q (rmul rating rating))
  end.

(** A second round of [k+1] observations at one rating, on top of a first
    such round, adds without rounding: adding the ratings of the second
    round one at a time to the sums of the first gives what adding their
    partial sums at once gives.  With [k = 0], one observation a round,
    nothing is asked. *)
Definition adds_exactly (rating : R) (k : nat) : Prop :=
  forall j, (j < k)%nat ->
    radd (snd (fst (tally rating k))) (radd (snd (fst (tally rating j))) rating) =
    radd (radd (snd (fst (tally rating k))) (snd (fst (tally rating j)))) rating /\
    radd (snd (tally rating k)) (radd (snd (tally rating j)) (rmul rating rating)) =
    radd (radd (snd (tally rating k)) (snd (tally rating j))) (rmul rating rating).

(** What the schema itself enforces: [class] is UNIQUE in [elements], [id]
    is the PRIMARY KEY of each table. *)
Definition schema_ok (t : tables R) : Prop :=
  NoDup (map e_class (elements t)) /\
  NoDup (map e_id (elements t)) /\
  NoDup (map (@r_id R) (relations t)).

(** Every relation row was inserted under the id of an element (or under
    NULL): [addRelatedElement] binds what [getRootElementId] returned. *)
Definition parents_ok (t : tables R) : Prop :=
  forall r, In r (relations t) ->
    r_parent_id r = None \/ exists e, In e (elements t) /\ r_parent_id r = Some (e_id e).

Definition wf (t : tables R) : Prop := schema_ok t /\ parents_ok t.

(** [t'] keeps every row of [t]: the element rows as they are, the
    relation rows up to their statistics. *)
Definition keeps_rows (t t' : tables R) : Prop :=
  (exists more, elements t' = elements t ++ more) /\
  (exists more, map row_key (relations t') = map row_key (relations t) ++ more).

(** The calls a client can make on a datastore and its rating system.  The
    methods of the rating system that only pass their arguments on
    ([isRootElement], [addNewRootElement], [addRelatedElement],
    [incrementRelatedElementCount], [updateRelatedElementRating],
    [incrementRelatedBoth], [commit]) are the calls of the datastore
    methods they pass them to. *)
Inductive call : Type :=
| CreateTables
| IsChildOf (element relatedElement : string)
| ExistsRootElement (name : string)
| GetRootElementId (name : string)
| GetChildren (parent : string)
| ExistsChildElement (parent child : string)
| AddRootElement (name : string)
| AddRelatedElement (parent name : string) (count : Z) (rating : R)
| GetChildId (parent child : string)
| UpdateChild (parent child : string) (count : Z) (rating : R)
| UpdateChildCount (parent child : string) (increment : Z)
| UpdateChildRating (parent child : string) (rating : R)
| IncrementChild (parent child : string) (increment : Z) (rating : R)
| ComputeRating (element : string)
| Commit
| FeedLine (rating : R) (relationList : list string).

Definition discard {A : Type} (m : DataModule.M R A) : DataModule.M R unit :=
  DataModule.bind m (fun _ => DataModule.ret tt).

Definition perform (c : call) : DataModule.M R unit :=
  match c with
  | CreateTables => DataModule.create_tables
  | IsChildOf element relatedElement =>
      discard (MarkovRatingSystem.isChildOf element relatedElement)
  | ExistsRootElement name => discard (DataModule.existsRootElement name)
  | GetRootElementId name => discard (DataModule.getRootElementId name)
  | GetChildren parent => discard (DataModule.getChildren parent)
  | ExistsChildElement parent child => discard (DataModule.existsChildElement parent child)
  | AddRootElement name => DataModule.addRootElement name
  | AddRelatedElement parent name count rating =>
      DataModule.addRelatedElement parent name count rating
  | GetChildId parent child => discard (DataModule.getChildId parent child)
  | UpdateChild parent child count rating => DataModule.updateChild parent child count rating
  | UpdateChildCount parent child increment =>
      DataModule.updateChildCount parent child increment
  | UpdateChildRating parent child rating => DataModule.updateChildRating parent child rating
  | IncrementChild parent child increment rating =>
      DataModule.incrementChild parent child increment rating
  | ComputeRating element => discard (DataModule.computeRating element)
  | Commit => DataModule.commit
  | FeedLine rating relationList => MarkovRatingSystem.feedLine rating relationList
  end.

(** A client goes on after a call that raised (it can catch the exception):
    the object it goes on with is the one the call left. *)
Fixpoint perform_all (cs : list call) (dm : DataModule.t R) : DataModule.t R :=
  match cs with
  | [] => dm
  | c :: cs' => perform_all cs' (snd (perform c dm))
  end.

(** [m] run on [dm] returns [a] and leaves the connection seeing [t'], the
    file untouched. *)
Definition returns {A : Type} (m : DataModule.M R A) (dm : DataModule.t R)
    (a : A) (t' : tables R) : Prop :=
  exists c', m dm = (Ok a, DataModule.mk (DataModule.file dm) t' c').

(** [m] run on [dm] raises [e]: the tables and the file are as before, the
    cursor has no rows. *)
Definition raises {A : Type} (m : DataModule.M R A) (dm : DataModule.t R) (e : exn) : Prop :=
  m dm = (Raise e, DataModule.mk (DataModule.file dm) (DataModule.conn dm) []).

(** The same for every object whose connection sees [t]: what is waiting on
    the cursor does not matter to [m]. *)
Definition runs {A : Type} (m : DataModule.M R A) (t : tables R) (a : A) (t' : tables R)
  : Prop :=
  forall dm, DataModule.conn dm = t -> returns m dm a t'.

(** A relation between the object before and after holds for every run
    of [m], whether it returns or raises. *)
Definition every_run (P : DataModule.t R -> DataModule.t R -> Prop)
    {A : Type} (m : DataModule.M R A) : Prop :=
  forall dm, P dm (snd (m dm)).

(** The file is not written. *)
Definition same_file (dm dm' : DataModule.t R) : Prop :=
  DataModule.file dm' = DataModule.file dm.

(** The connection still sees every row. *)
Definition conn_keeps (dm dm' : DataModule.t R) : Prop :=
  keeps_rows (DataModule.conn dm) (DataModule.conn dm').

End Views.

Arguments stats R : clear implicits.

(** The ratings of [test1], integers of small size: on integers below 2^53
    in size the additions and multiplications of binary64 are those of
    [Z], and so is a quotient that is a whole number; the instance is used
    on such data only (ratings of one or two digits, sums of a few
    hundreds, the quotient 12/3). *)
#[local] Instance IntegerRatings : RealOps Z := {|
  radd := Z.add;
  rmul := Z.mul;
  rsum := fold_right Z.add 0;
  rdiv := fun a b => if Z.eqb b 0 then None else Some (Z.div a b)
|}.

(** A new datastore on a new file. *)
Definition new_store : DataModule.t Z := DataModule.init no_tables.

(** The first and the last line of [test1], fed to a new datastore. *)
Definition store_ab : DataModule.t Z :=
  snd (MarkovRatingSystem.feedLines [(1, ["a"; "b"; "c"]); (10, ["a"; "b"])] new_store).

(** ** Further views, for the properties beyond the claims *)

Section MoreViews.
Context {R : Type} {ops : RealOps R}.

(** The calls that only read. *)
Definition is_query (c : @call R) : bool :=
  match c with
  | IsChildOf _ _
  | ExistsRootElement _ | GetRootElementId _ | GetChildren _
  | ExistsChildElement _ _ | GetChildId _ _ | ComputeRating _ => true
  | _ => false
  end.

(** Neither the tables the connection sees nor the file change. *)
Definition same_tables (dm dm' : DataModule.t R) : Prop :=
  DataModule.conn dm' = DataModule.conn dm /\ DataModule.file dm' = DataModule.file dm.

(** The relations table is as it was. *)
Definition same_relations (dm dm' : DataModule.t R) : Prop :=
  relations (DataModule.conn dm') = relations (DataModule.conn dm).




(** The columns [getChildren] selects. *)
Definition children_cols (r : relation_row R) : list (sqlval R) :=
  [SqlText (r_class r); SqlInt (r_count r);
   SqlReal (r_rating_sum r); SqlReal (r_rating_sum_squares r)].

End MoreViews.

(** * Properties *)

Unset Implicit Arguments.

(** ** Running the methods *)

Section Running.
Context {R : Type} {ops : RealOps R}.

Import DataModule.

Lemma returns_ret (A : Type) (a : A) (dm : t R) :
  returns (ret a) dm a (conn dm).
Proof. destruct dm as [f c k]. exists k. reflexivity. Qed.

Lemma returns_bind (A B : Type) (m : M R A) (k : A -> M R B) (dm : t R)
    (a : A) (t1 : tables R) (b : B) (t2 : tables R) :
  returns m dm a t1 ->
  (forall dm1, file dm1 = file dm -> conn dm1 = t1 -> returns (k a) dm1 b t2) ->
  returns (bind m k) dm b t2.
Proof.
  intros [c1 Hm] Hk.
  destruct (Hk (mk (file dm) t1 c1) eq_refl eq_refl) as [c2 Hk'].
  exists c2. unfold bind. rewrite Hm. exact Hk'.
Qed.

Lemma returns_fun (A : Type) (m : M R A) (dm : t R) (a a' : A) (t1 t1' : tables R) :
  returns m dm a t1 -> returns m dm a' t1' -> a = a' /\ t1 = t1'.
Proof.
  intros [c1 H1] [c2 H2]. rewrite H1 in H2. inversion H2. auto.
Qed.

Lemma returns_fst (A : Type) (m : M R A) (dm : t R) (a : A) (t1 : tables R) :
  returns m dm a t1 -> fst (m dm) = Ok a.
Proof. intros [c1 H1]. rewrite H1. reflexivity. Qed.

Lemma returns_conn (A : Type) (m : M R A) (dm : t R) (a : A) (t1 : tables R) :
  returns m dm a t1 -> conn (snd (m dm)) = t1.
Proof. intros [c1 H1]. rewrite H1. reflexivity. Qed.

Lemma returns_file (A : Type) (m : M R A) (dm : t R) (a : A) (t1 : tables R) :
  returns m dm a t1 -> file (snd (m dm)) = file dm.
Proof. intros [c1 H1]. rewrite H1. reflexivity. Qed.

Lemma returns_execute_select (q : tables R -> list (list (sqlval R))) (dm : t R) :
  returns (execute_select q) dm tt (conn dm).
Proof. eexists. reflexivity. Qed.

Lemma returns_execute_write (bound : list Z) (u : tables R -> tables R) (dm : t R) :
  forallb Sql.int64 bound = true ->
  returns (execute_write bound u) dm tt (u (conn dm)).
Proof. intros H. unfold returns, execute_write. rewrite H. eexists. reflexivity. Qed.

Lemma raises_execute_write (bound : list Z) (u : tables R -> tables R) (dm : t R) :
  forallb Sql.int64 bound = false ->
  raises (execute_write bound u) dm OverflowError.
Proof. intros H. unfold raises, execute_write. rewrite H. reflexivity. Qed.

Lemma returns_then_raises (A B : Type) (m : M R A) (k : A -> M R B) (dm : t R)
    (a : A) (e : exn) :
  returns m dm a (conn dm) ->
  (forall dm1, file dm1 = file dm -> conn dm1 = conn dm -> raises (k a) dm1 e) ->
  raises (bind m k) dm e.
Proof.
  intros [c1 Hm] Hk. unfold raises, bind. rewrite Hm.
  rewrite (Hk (mk (file dm) (conn dm) c1) eq_refl eq_refl). reflexivity.
Qed.

Lemma raises_fst (A : Type) (m : M R A) (dm : t R) (e : exn) :
  raises m dm e -> fst (m dm) = Raise e.
Proof. intros H. rewrite H. reflexivity. Qed.

Lemma raises_conn (A : Type) (m : M R A) (dm : t R) (e : exn) :
  raises m dm e -> conn (snd (m dm)) = conn dm.
Proof. intros H. rewrite H. reflexivity. Qed.

Lemma raises_file (A : Type) (m : M R A) (dm : t R) (e : exn) :
  raises m dm e -> file (snd (m dm)) = file dm.
Proof. intros H. rewrite H. reflexivity. Qed.

Lemma int64_one (z : Z) : Sql.int64 z = true -> forallb Sql.int64 [z] = true.
Proof. intros H. simpl. rewrite H. reflexivity. Qed.

Lemma int64_none (z : Z) : Sql.int64 z = false -> forallb Sql.int64 [z] = false.
Proof. intros H. simpl. rewrite H. reflexivity. Qed.

Lemma returns_existsRootElement (name : string) (dm : t R) :
  returns (existsRootElement name) dm
          (match root_id (conn dm) name with Some _ => true | None => false end)
          (conn dm).
Proof.
  unfold returns, existsRootElement, bind, execute_select, fetchone, ret, root_id,
    Sql.select_element.
  simpl. destruct (Sql.elements_where_class (conn dm) name); simpl; eexists; reflexivity.
Qed.

Lemma returns_getRootElementId (name : string) (dm : t R) :
  returns (getRootElementId name) dm (root_id (conn dm) name) (conn dm).
Proof.
  unfold returns, getRootElementId, fetch_int, bind, execute_select, fetchone, ret,
    root_id, Sql.select_element_id.
  simpl. destruct (Sql.elements_where_class (conn dm) name); simpl; eexists; reflexivity.
Qed.

Lemma returns_getChildId (parent child : string) (dm : t R) :
  returns (getChildId parent child) dm (child_id (conn dm) parent child) (conn dm).
Proof.
  unfold returns, getChildId, fetch_int, bind, execute_select, fetchone, ret,
    child_id, Sql.select_child_id.
  simpl. destruct (Sql.join_child (conn dm) parent child); simpl; eexists; reflexivity.
Qed.

Lemma returns_getChildren (parent : string) (dm : t R) :
  returns (getChildren parent) dm (Sql.select_children parent (conn dm)) (conn dm).
Proof. eexists. reflexivity. Qed.

Lemma returns_addRelatedElement (parent name : string) (count : Z) (rating : R) (dm : t R) :
  Sql.int64 count = true ->
  returns (addRelatedElement parent name count rating) dm tt
          (Sql.insert_relation name count rating (rmul rating rating)
                               (root_id (conn dm) parent) (conn dm)).
Proof.
  intros I. unfold addRelatedElement.
  eapply returns_bind; [apply returns_getRootElementId|].
  intros dm1 _ <-. apply returns_execute_write. apply int64_one. exact I.
Qed.

Lemma raises_addRelatedElement (parent name : string) (count : Z) (rating : R) (dm : t R) :
  Sql.int64 count = false ->
  raises (addRelatedElement parent name count rating) dm OverflowError.
Proof.
  intros I. unfold addRelatedElement.
  eapply returns_then_raises; [apply returns_getRootElementId|].
  intros dm1 _ _. apply raises_execute_write. apply int64_none. exact I.
Qed.

(** The four UPDATE methods share their shape. *)
Lemma returns_update (bound : list Z) (assign : relation_row R -> relation_row R)
    (parent child : string) (dm : t R) :
  forallb Sql.int64 bound = true ->
  returns (bind (getRootElementId parent) (fun parent_id =>
           bind (getChildId parent child) (fun child_id =>
           execute_write bound (Sql.update_relations assign child_id parent_id))))
          dm tt
          (Sql.update_relations assign (child_id (conn dm) parent child)
                                (root_id (conn dm) parent) (conn dm)).
Proof.
  intros I.
  eapply returns_bind; [apply returns_getRootElementId|].
  intros dm1 _ E1.
  eapply returns_bind; [apply returns_getChildId|].
  intros dm2 _ E2. rewrite E1.
  match goal with
  | |- returns (execute_write _ ?u) _ _ _ =>
      pose proof (returns_execute_write bound u dm2 I) as H
  end.
  rewrite E2, E1 in H. exact H.
Qed.

Lemma raises_update (bound : list Z) (assign : relation_row R -> relation_row R)
    (parent child : string) (dm : t R) :
  forallb Sql.int64 bound = false ->
  raises (bind (getRootElementId parent) (fun parent_id =>
          bind (getChildId parent child) (fun child_id =>
          execute_write bound (Sql.update_relations assign child_id parent_id))))
         dm OverflowError.
Proof.
  intros I.
  eapply returns_then_raises; [apply returns_getRootElementId|].
  intros dm1 F1 E1.
  assert (raises (bind (getChildId parent child) (fun child_id =>
            execute_write bound
              (Sql.update_relations assign child_id (root_id (conn dm) parent))))
            dm1 OverflowError) as H.
  { eapply returns_then_raises; [apply returns_getChildId|].
    intros dm2 _ _. apply raises_execute_write. exact I. }
  exact H.
Qed.

Lemma returns_incrementChild (parent child : string) (increment : Z) (rating : R) (dm : t R) :
  Sql.int64 increment = true ->
  returns (incrementChild parent child increment rating) dm tt
          (Sql.update_relations (Sql.set_all_plus increment rating (rmul rating rating))
                                (child_id (conn dm) parent child)
                                (root_id (conn dm) parent) (conn dm)).
Proof. intros I. apply returns_update. apply int64_one. exact I. Qed.

Lemma raises_incrementChild (parent child : string) (increment : Z) (rating : R) (dm : t R) :
  Sql.int64 increment = false ->
  raises (incrementChild parent child increment rating) dm OverflowError.
Proof. intros I. apply raises_update. apply int64_none. exact I. Qed.

Lemma raises_updateChild (parent child : string) (count : Z) (rating : R) (dm : t R) :
  Sql.int64 count = false ->
  raises (updateChild parent child count rating) dm OverflowError.
Proof. intros I. apply raises_update. apply int64_none. exact I. Qed.

Lemma returns_updateChild (parent child : string) (count : Z) (rating : R) (dm : t R) :
  Sql.int64 count = true ->
  returns (updateChild parent child count rating) dm tt
          (Sql.update_relations (Sql.set_all count rating (rmul rating rating))
                                (child_id (conn dm) parent child)
                                (root_id (conn dm) parent) (conn dm)).
Proof. intros I. apply returns_update. apply int64_one. exact I. Qed.

End Running.

(** ** The tables under the statements *)

Section Tables.
Context {R : Type} {ops : RealOps R}.

Lemma NoDup_map_eq (A B : Type) (f : A -> B) (l : list A) (a b : A) :
  NoDup (map f l) -> In a l -> In b l -> f a = f b -> a = b.
Proof.
  induction l as [|c l IH]; simpl; intros N Ha Hb E; [contradiction|].
  inversion N as [|? ? Hn N']; subst.
  destruct Ha as [<-|Ha], Hb as [<-|Hb]; auto.
  - exfalso. apply Hn. rewrite E. apply in_map; exact Hb.
  - exfalso. apply Hn. rewrite <- E. apply in_map; exact Ha.
Qed.

Lemma filter_none (A : Type) (g : A -> bool) (l : list A) :
  (forall a, In a l -> g a = false) -> filter g l = [].
Proof.
  induction l as [|a l IH]; simpl; intros H; [reflexivity|].
  rewrite (H a (or_introl eq_refl)). apply IH. intros b Hb. apply H. right; exact Hb.
Qed.

Lemma filter_all (A : Type) (g : A -> bool) (l : list A) :
  (forall a, In a l -> g a = true) -> filter g l = l.
Proof.
  induction l as [|a l IH]; simpl; intros H; [reflexivity|].
  rewrite (H a (or_introl eq_refl)). f_equal. apply IH. intros b Hb. apply H. right; exact Hb.
Qed.

Lemma next_id_above (ids : list Z) (i : Z) : In i ids -> i < Sql.next_id ids.
Proof.
  unfold Sql.next_id. induction ids as [|j ids IH]; cbn [fold_right In]; [contradiction|].
  intros [->|H]; [lia|]. specialize (IH H). lia.
Qed.

Lemma next_id_fresh (ids : list Z) : ~ In (Sql.next_id ids) ids.
Proof. intros H. apply next_id_above in H. lia. Qed.

(** *** Elements *)

Lemma where_class_single (l : list element_row) (x : string) (e : element_row)
    (rest : list element_row) :
  NoDup (map e_class l) ->
  filter (fun e => String.eqb (e_class e) x) l = e :: rest ->
  rest = [].
Proof.
  induction l as [|a l IH]; simpl; intros N H; [discriminate|].
  inversion N as [|? ? Hn N']; subst.
  destruct (String.eqb_spec (e_class a) x) as [E|E].
  - inversion H; subst. apply filter_none. intros b Hb.
    apply String.eqb_neq. intros Eb. apply Hn. rewrite <- Eb. apply in_map; exact Hb.
  - apply IH; assumption.
Qed.

Lemma root_id_In (t : tables R) (x : string) (i : Z) :
  root_id t x = Some i -> In (mkElement x i) (elements t).
Proof.
  unfold root_id, Sql.elements_where_class.
  destruct (filter _ (elements t)) as [|e rest] eqn:F; simpl; [discriminate|].
  intros H; inversion H; subst.
  assert (In e (filter (fun e => String.eqb (e_class e) x) (elements t))) as Hin
    by (rewrite F; left; reflexivity).
  apply filter_In in Hin. destruct Hin as [Hin Hc].
  apply String.eqb_eq in Hc. destruct e; simpl in *; subst. exact Hin.
Qed.

Lemma root_id_None (t : tables R) (x : string) (e : element_row) :
  root_id t x = None -> In e (elements t) -> e_class e <> x.
Proof.
  unfold root_id, Sql.elements_where_class.
  destruct (filter _ (elements t)) as [|a rest] eqn:F; simpl; [|discriminate].
  intros _ Hin Hc.
  assert (In e (filter (fun e => String.eqb (e_class e) x) (elements t))) as H
    by (apply filter_In; split; [exact Hin | apply String.eqb_eq; exact Hc]).
  rewrite F in H. exact H.
Qed.

Lemma root_id_inj (t : tables R) (x x' : string) (i : Z) :
  NoDup (map e_id (elements t)) ->
  root_id t x = Some i -> root_id t x' = Some i -> x = x'.
Proof.
  intros N H H'. apply root_id_In in H. apply root_id_In in H'.
  assert (mkElement x i = mkElement x' i) as E
    by (eapply NoDup_map_eq; eauto).
  inversion E; reflexivity.
Qed.

Lemma where_class_root (t : tables R) (x : string) :
  NoDup (map e_class (elements t)) ->
  Sql.elements_where_class t x =
    match root_id t x with Some i => [mkElement x i] | None => [] end.
Proof.
  intros N. unfold root_id, Sql.elements_where_class.
  destruct (filter _ (elements t)) as [|e rest] eqn:F; simpl; [reflexivity|].
  rewrite (where_class_single _ _ _ _ N F).
  assert (In e (filter (fun e => String.eqb (e_class e) x) (elements t))) as Hin
    by (rewrite F; left; reflexivity).
  apply filter_In in Hin. destruct Hin as [_ Hc].
  apply String.eqb_eq in Hc. destruct e; simpl in *; subst. reflexivity.
Qed.

Lemma join_children_root (t : tables R) (x : string) :
  NoDup (map e_class (elements t)) ->
  Sql.join_children t x =
    match root_id t x with
    | Some i => filter (fun r => Sql.eq_int (r_parent_id r) (Some i)) (relations t)
    | None => []
    end.
Proof.
  intros N. unfold Sql.join_children. rewrite (where_class_root t x N).
  destruct (root_id t x); simpl; [apply app_nil_r | reflexivity].
Qed.

Lemma join_child_root (t : tables R) (x y : string) :
  NoDup (map e_class (elements t)) ->
  Sql.join_child t x y =
    match root_id t x with
    | Some i => filter (fun r => String.eqb (r_class r) y)
                  (filter (fun r => Sql.eq_int (r_parent_id r) (Some i)) (relations t))
    | None => []
    end.
Proof.
  intros N. unfold Sql.join_child. rewrite (join_children_root t x N).
  destruct (root_id t x); reflexivity.
Qed.

Lemma join_child_In (t : tables R) (x y : string) (r : relation_row R) :
  NoDup (map e_class (elements t)) ->
  In r (Sql.join_child t x y) ->
  In r (relations t) /\ r_class r = y /\
  exists i, root_id t x = Some i /\ r_parent_id r = Some i.
Proof.
  intros N. rewrite (join_child_root t x y N).
  destruct (root_id t x) as [i|]; [|contradiction].
  intros H. apply filter_In in H. destruct H as [H Hc].
  apply filter_In in H. destruct H as [H Hp].
  apply String.eqb_eq in Hc. split; [exact H|]. split; [exact Hc|].
  exists i. split; [reflexivity|].
  destruct (r_parent_id r) as [j|]; simpl in Hp; [|discriminate].
  apply Z.eqb_eq in Hp. congruence.
Qed.

Lemma eq_int_Some (i j : Z) : Sql.eq_int (Some i) (Some j) = Z.eqb i j.
Proof. reflexivity. Qed.

(** *** The invariant depends on the keys only *)

Lemma wf_same_keys (t t' : tables R) :
  elements t' = elements t ->
  map row_key (relations t') = map row_key (relations t) ->
  wf t -> wf t'.
Proof.
  intros He Hk [[Nc [Ne Nr]] Hp]. split; [split; [|split]|].
  - rewrite He; exact Nc.
  - rewrite He; exact Ne.
  - replace (map (@r_id R) (relations t'))
      with (map (fun k : Z * string * option Z => fst (fst k)) (map row_key (relations t')))
      by (rewrite map_map; reflexivity).
    rewrite Hk, map_map. exact Nr.
  - intros r Hr. apply (in_map row_key) in Hr. rewrite Hk in Hr.
    apply in_map_iff in Hr. destruct Hr as [r0 [E Hr0]].
    assert (r_parent_id r = r_parent_id r0) as -> by (unfold row_key in E; congruence).
    rewrite He. apply Hp; exact Hr0.
Qed.

(** *** INSERT INTO relations *)

Lemma wf_insert_relation (t : tables R) (x y : string) (n : Z) (s q : R) :
  wf t -> wf (Sql.insert_relation y n s q (root_id t x) t).
Proof.
  intros [[Nc [Ne Nr]] Hp]. split; [split; [|split]|]; simpl; try assumption.
  - rewrite map_app. apply NoDup_app; [exact Nr | repeat constructor; simpl; tauto |].
    simpl. intros a Ha [<-|[]]. exact (next_id_fresh _ Ha).
  - intros r Hr. apply in_app_or in Hr. destruct Hr as [Hr|[<-|[]]]; [apply Hp; exact Hr|].
    simpl. destruct (root_id t x) as [i|] eqn:Hx; [right|left; reflexivity].
    exists (mkElement x i). split; [apply root_id_In; exact Hx | reflexivity].
Qed.

Lemma join_child_insert (t : tables R) (x y : string) (i n : Z) (s q : R) (p c : string) :
  schema_ok t -> root_id t x = Some i ->
  Sql.join_child (Sql.insert_relation y n s q (Some i) t) p c =
  Sql.join_child t p c ++
    (if String.eqb p x && String.eqb c y
     then [mkRelation y (Sql.next_id (map (@r_id R) (relations t))) n s q (Some i)]
     else []).
Proof.
  intros [Nc [Ne Nr]] Hx.
  rewrite (join_child_root (Sql.insert_relation y n s q (Some i) t) p c Nc).
  rewrite (join_child_root t p c Nc).
  change (root_id (Sql.insert_relation y n s q (Some i) t) p) with (root_id t p).
  destruct (root_id t p) as [j|] eqn:Hp.
  - cbn [relations Sql.insert_relation]. rewrite !filter_app. f_equal.
    cbn [filter r_parent_id r_class]. rewrite eq_int_Some.
    destruct (String.eqb_spec p x) as [E|E].
    + subst p. assert (j = i) by congruence. subst j. rewrite Z.eqb_refl.
      cbn [filter r_class andb]. rewrite String.eqb_sym. reflexivity.
    + destruct (Z.eqb_spec i j) as [E'|E']; [|reflexivity].
      subst j. exfalso. apply E. eapply root_id_inj; eauto.
  - destruct (String.eqb_spec p x) as [E|E]; [congruence|reflexivity].
Qed.

(** *** UPDATE relations *)

Lemma update_keys (assign : relation_row R -> relation_row R) (cid pid : option Z)
    (t : tables R) :
  (forall r, row_key (assign r) = row_key r) ->
  map row_key (relations (Sql.update_relations assign cid pid t)) =
  map row_key (relations t).
Proof.
  intros K. simpl. rewrite map_map. apply map_ext. intros r.
  destruct (_ && _); [apply K | reflexivity].
Qed.

Lemma wf_update (assign : relation_row R -> relation_row R) (cid pid : option Z)
    (t : tables R) :
  (forall r, row_key (assign r) = row_key r) ->
  wf t -> wf (Sql.update_relations assign cid pid t).
Proof.
  intros K. apply wf_same_keys; [reflexivity | apply update_keys; exact K].
Qed.

Lemma update_nothing (assign : relation_row R -> relation_row R) (pid : option Z)
    (t : tables R) :
  Sql.update_relations assign None pid t = t.
Proof.
  destruct t as [es rs]. unfold Sql.update_relations. simpl. f_equal.
  rewrite <- (map_id rs) at 2. apply map_ext. intros r. reflexivity.
Qed.

Lemma join_child_update (assign : relation_row R -> relation_row R) (t : tables R)
    (x y p c : string) :
  (forall r, row_key (assign r) = row_key r) ->
  schema_ok t ->
  Sql.join_child (Sql.update_relations assign (child_id t x y) (root_id t x) t) p c =
  if String.eqb p x && String.eqb c y
  then on_first assign (Sql.join_child t p c)
  else Sql.join_child t p c.
Proof.
  intros K [Nc [Ne Nr]].
  destruct (child_id t x y) as [cid|] eqn:Hc.
  2:{ rewrite update_nothing. unfold child_id in Hc.
      destruct (String.eqb_spec p x) as [->|]; [|reflexivity].
      destruct (String.eqb_spec c y) as [->|]; [|reflexivity].
      destruct (Sql.join_child t x y); [reflexivity | discriminate]. }
  unfold child_id in Hc.
  destruct (Sql.join_child t x y) as [|r0 rest] eqn:Hxy; [discriminate|].
  simpl in Hc. inversion Hc; subst cid. clear Hc.
  assert (In r0 (Sql.join_child t x y)) as H0 by (rewrite Hxy; left; reflexivity).
  destruct (join_child_In _ _ _ _ Nc H0) as [Hr0 [Hy [i [Hx Hp0]]]].
  rewrite Hx.
  set (g := fun r : relation_row R =>
              if Sql.eq_int (Some (r_id r)) (Some (r_id r0)) &&
                 Sql.eq_int (r_parent_id r) (Some i)
              then assign r else r).
  assert (forall r, row_key (g r) = row_key r) as Kg
    by (intros r; unfold g; destruct (_ && _); [apply K | reflexivity]).
  assert (Sql.join_child (Sql.update_relations assign (Some (r_id r0)) (Some i) t) p c
          = map g (Sql.join_child t p c)) as ->.
  { rewrite (join_child_root (Sql.update_relations assign (Some (r_id r0)) (Some i) t) p c Nc).
    rewrite (join_child_root t p c Nc).
    change (root_id (Sql.update_relations assign (Some (r_id r0)) (Some i) t) p)
      with (root_id t p).
    destruct (root_id t p) as [j|]; [|reflexivity].
    cbn [relations Sql.update_relations]. fold g.
    rewrite !filter_map_swap. f_equal.
    rewrite (filter_ext (fun a => String.eqb (r_class (g a)) c)
                        (fun a => String.eqb (r_class a) c)).
    2:{ intros a. specialize (Kg a). unfold row_key in Kg. congruence. }
    f_equal. apply filter_ext.
    intros a. specialize (Kg a). unfold row_key in Kg. congruence. }
  assert (forall r, In r (relations t) -> r_id r = r_id r0 -> r = r0) as Uid.
  { intros r Hr E. eapply NoDup_map_eq; eauto. }
  assert (g r0 = assign r0) as G0.
  { unfold g. rewrite Hp0. simpl. rewrite !Z.eqb_refl. reflexivity. }
  assert (forall r, r <> r0 -> In r (relations t) -> g r = r) as Gother.
  { intros r Hne Hr. unfold g. simpl.
    destruct (Z.eqb_spec (r_id r) (r_id r0)) as [E|E]; [|reflexivity].
    exfalso. apply Hne. apply Uid; assumption. }
  destruct (String.eqb_spec p x) as [->|Epx].
  - destruct (String.eqb_spec c y) as [->|Ecy]; simpl.
    + rewrite Hxy. simpl. rewrite G0. f_equal.
      rewrite <- (map_id rest) at 2. apply map_ext_in. intros r Hr.
      apply Gother.
      * intros ->.
        assert (NoDup (map (@r_id R) (Sql.join_child t x y))) as Nj.
        { rewrite (join_child_root t x y Nc), Hx.
          apply NoDup_map_NoDup_ForallPairs.
          - intros a b Ha Hb E. apply filter_In in Ha, Hb.
            destruct Ha as [Ha _], Hb as [Hb _]. apply filter_In in Ha, Hb.
            eapply NoDup_map_eq; [exact Nr | tauto | tauto | exact E].
          - apply NoDup_filter, NoDup_filter. eapply NoDup_map_inv; exact Nr. }
        rewrite Hxy in Nj. simpl in Nj. inversion Nj as [|? ? Hn _]; subst.
        apply Hn. apply in_map; exact Hr.
      * assert (In r (Sql.join_child t x y)) as Hr' by (rewrite Hxy; right; exact Hr).
        apply (join_child_In _ _ _ _ Nc) in Hr'. tauto.
    + rewrite <- (map_id (Sql.join_child t x c)) at 2. apply map_ext_in. intros r Hr.
      destruct (join_child_In _ _ _ _ Nc Hr) as [Hin [Hcl _]].
      apply Gother; [|exact Hin]. intros ->. congruence.
  - simpl. rewrite <- (map_id (Sql.join_child t p c)) at 2. apply map_ext_in. intros r Hr.
    destruct (join_child_In _ _ _ _ Nc Hr) as [Hin [Hcl [j [Hj Hpj]]]].
    apply Gother; [|exact Hin]. intros ->.
    apply Epx. eapply root_id_inj; [exact Ne | exact Hj |]. congruence.
Qed.

(** *** INSERT INTO elements *)

Lemma insert_element_new (t : tables R) (x : string) :
  root_id t x = None ->
  Sql.insert_element x t =
  Ok (mkTables (elements t ++ [mkElement x (Sql.next_id (map e_id (elements t)))])
               (relations t)).
Proof.
  intros H. unfold Sql.insert_element.
  replace (existsb _ (elements t)) with false; [reflexivity|].
  symmetry. apply not_true_is_false. intros E. apply existsb_exists in E.
  destruct E as [e [He Hc]]. apply String.eqb_eq in Hc.
  eapply root_id_None; eassumption.
Qed.

Lemma insert_element_known (t : tables R) (x : string) (i : Z) :
  root_id t x = Some i -> Sql.insert_element x t = Raise IntegrityError.
Proof.
  intros H. unfold Sql.insert_element.
  replace (existsb _ (elements t)) with true; [reflexivity|].
  symmetry. apply existsb_exists. exists (mkElement x i).
  split; [apply root_id_In; exact H | apply String.eqb_refl].
Qed.

End Tables.

(** ** One pass of [feedLine] *)

Section Feeding.
Context {R : Type} {ops : RealOps R}.

Import DataModule.

Lemma runs_ret (A : Type) (a : A) (t : tables R) : runs (ret a) t a t.
Proof. intros dm <-. apply returns_ret. Qed.

Lemma runs_bind (A B : Type) (m : M R A) (k : A -> M R B)
    (t : tables R) (a : A) (t1 : tables R) (b : B) (t2 : tables R) :
  runs m t a t1 -> runs (k a) t1 b t2 -> runs (bind m k) t b t2.
Proof.
  intros H1 H2 dm E. eapply returns_bind; [apply H1; exact E|].
  intros dm1 _ E1. apply H2; exact E1.
Qed.

Lemma runs_existsRootElement (x : string) (t : tables R) :
  runs (existsRootElement x) t
       (match root_id t x with Some _ => true | None => false end) t.
Proof. intros dm <-. apply returns_existsRootElement. Qed.

Lemma runs_addRootElement_new (x : string) (t : tables R) :
  root_id t x = None ->
  runs (addRootElement x) t tt
    (mkTables (elements t ++ [mkElement x (Sql.next_id (map e_id (elements t)))])
              (relations t)).
Proof.
  intros H dm <-. unfold returns, addRootElement, execute_checked.
  rewrite (insert_element_new _ _ H). eexists. reflexivity.
Qed.

Lemma isChildOf_value (t : tables R) (x y : string) :
  existsb (fun name : sqlval R =>
             match name with SqlText s => String.eqb y s | _ => false end)
          (map (fun row => hd SqlNull row) (Sql.select_children x t)) =
  match Sql.join_child t x y with [] => false | _ :: _ => true end.
Proof.
  unfold Sql.select_children, Sql.join_child.
  induction (Sql.join_children t x) as [|r rows IH]; simpl; [reflexivity|].
  rewrite (String.eqb_sym y). destruct (String.eqb (r_class r) y); simpl; [reflexivity|exact IH].
Qed.

Lemma runs_isChildOf (x y : string) (t : tables R) :
  runs (MarkovRatingSystem.isChildOf x y) t
       (match Sql.join_child t x y with [] => false | _ :: _ => true end) t.
Proof.
  intros dm <-. unfold MarkovRatingSystem.isChildOf.
  eapply returns_bind; [apply returns_getChildren|].
  intros dm1 _ E. rewrite <- isChildOf_value, <- E. apply returns_ret.
Qed.

Lemma runs_addRelatedElement (parent name : string) (count : Z) (rating : R) (t : tables R) :
  Sql.int64 count = true ->
  runs (addRelatedElement parent name count rating) t tt
       (Sql.insert_relation name count rating (rmul rating rating) (root_id t parent) t).
Proof. intros I dm <-. apply returns_addRelatedElement. exact I. Qed.

Lemma runs_incrementChild (parent child : string) (increment : Z) (rating : R)
    (t : tables R) :
  Sql.int64 increment = true ->
  runs (incrementChild parent child increment rating) t tt
       (Sql.update_relations (Sql.set_all_plus increment rating (rmul rating rating))
                             (child_id t parent child) (root_id t parent) t).
Proof. intros I dm <-. apply returns_incrementChild. exact I. Qed.

Lemma root_id_same_elements (t t' : tables R) (p : string) :
  elements t' = elements t -> root_id t' p = root_id t p.
Proof. intros E. unfold root_id, Sql.elements_where_class. rewrite E. reflexivity. Qed.

(** Registering a name that is not in [elements] changes no edge. *)
Lemma register_new (t : tables R) (x : string) :
  wf t -> root_id t x = None ->
  let t' := mkTables (elements t ++ [mkElement x (Sql.next_id (map e_id (elements t)))])
                     (relations t) in
  wf t' /\
  (forall p c, Sql.join_child t' p c = Sql.join_child t p c) /\
  (forall p, root_id t' p =
             if String.eqb p x then Some (Sql.next_id (map e_id (elements t)))
             else root_id t p).
Proof.
  intros [[Nc [Ne Nr]] Hp] Hx t'.
  assert (forall p, Sql.elements_where_class t' p =
                    Sql.elements_where_class t p ++
                    (if String.eqb p x
                     then [mkElement x (Sql.next_id (map e_id (elements t)))] else []))
    as Hw.
  { intros p. unfold Sql.elements_where_class, t'. cbn [elements].
    rewrite filter_app. f_equal. cbn [filter e_class]. rewrite String.eqb_sym.
    destruct (String.eqb p x); reflexivity. }
  assert (Sql.elements_where_class t x = []) as Hnil.
  { unfold root_id in Hx. destruct (Sql.elements_where_class t x); [reflexivity|discriminate]. }
  split; [split; [split; [|split]|]|split].
  - unfold t'; cbn [elements]. rewrite map_app. apply NoDup_app; [exact Nc| |].
    + repeat constructor; simpl; tauto.
    + simpl. intros a Ha [<-|[]]. apply in_map_iff in Ha. destruct Ha as [e [He Hin]].
      eapply root_id_None; eassumption.
  - unfold t'; cbn [elements]. rewrite map_app. apply NoDup_app; [exact Ne| |].
    + repeat constructor; simpl; tauto.
    + simpl. intros a Ha [<-|[]]. exact (next_id_fresh _ Ha).
  - exact Nr.
  - intros r Hr. destruct (Hp r Hr) as [H|[e [He H]]]; [left; exact H|right].
    exists e. split; [|exact H]. unfold t'; cbn [elements]. apply in_or_app. left; exact He.
  - intros p c. unfold Sql.join_child, Sql.join_children. rewrite Hw, flat_map_app.
    destruct (String.eqb_spec p x) as [->|E]; cbn [flat_map]; [|rewrite !app_nil_r; reflexivity].
    rewrite Hnil. cbn [flat_map app]. rewrite app_nil_r.
    replace (filter _ (relations t')) with (@nil (relation_row R)); [reflexivity|].
    symmetry. apply filter_none. intros r Hr. cbn [e_id].
    destruct (Hp r Hr) as [H|[e [He H]]]; rewrite H; [reflexivity|].
    rewrite eq_int_Some. apply Z.eqb_neq.
    pose proof (next_id_above (map e_id (elements t)) (e_id e) (in_map e_id _ _ He)). lia.
  - intros p. unfold root_id. rewrite Hw.
    destruct (String.eqb_spec p x) as [->|E]; [rewrite Hnil; reflexivity|].
    rewrite app_nil_r. reflexivity.
Qed.

(** The registration at the head of the outer loop. *)
Lemma register_spec (x : string) (t : tables R) :
  wf t ->
  exists t',
    runs (if negb (match root_id t x with Some _ => true | None => false end)
          then MarkovRatingSystem.addNewRootElement x else ret tt)
         t tt t' /\
    wf t' /\
    (forall p c, Sql.join_child t' p c = Sql.join_child t p c) /\
    (exists i, root_id t' x = Some i) /\
    (forall p, root_id t' p <> None <-> (root_id t p <> None \/ p = x)) /\
    (root_id t x <> None -> t' = t) /\
    relations t' = relations t.
Proof.
  intros W. destruct (root_id t x) as [i|] eqn:Hx; cbn [negb].
  - exists t. split; [|split; [exact W|split; [reflexivity|split; [eauto|split; [|split]]]]].
    + apply runs_ret.
    + intros p. split; [tauto|]. intros [H| ->]; [exact H|congruence].
    + reflexivity.
    + reflexivity.
  - destruct (register_new _ _ W Hx) as [W' [Hj Hr]].
    eexists. split; [|split; [exact W'|split; [exact Hj|split; [|split; [|split]]]]].
    + apply runs_addRootElement_new. exact Hx.
    + rewrite Hr, String.eqb_refl. eauto.
    + intros p. rewrite Hr. destruct (String.eqb_spec p x) as [->|E].
      * split; [auto|discriminate].
      * split; [tauto|]. intros [H|H]; [exact H|contradiction].
    + congruence.
    + reflexivity.
Qed.

Lemma edge_same_join (t t' : tables R) :
  (forall p c, Sql.join_child t' p c = Sql.join_child t p c) ->
  forall p c, edge t' p c = edge t p c.
Proof. intros H p c. unfold edge. rewrite H. reflexivity. Qed.

Lemma plus_keeps_key (increment : Z) (rating squared : R) (r : relation_row R) :
  row_key (Sql.set_all_plus increment rating squared r) = row_key r.
Proof. reflexivity. Qed.

Lemma set_keeps_key (count : Z) (rating squared : R) (r : relation_row R) :
  row_key (Sql.set_all count rating squared r) = row_key r.
Proof. reflexivity. Qed.

(** The body of the inner loop: one observation of the pair, if it is a pair. *)
Lemma feedPair_spec (rating : R) (x y : string) (t : tables R) (i : Z) :
  wf t -> root_id t x = Some i ->
  exists t',
    runs (MarkovRatingSystem.feedPair rating x y) t tt t' /\
    wf t' /\
    elements t' = elements t /\
    (forall p c, edge t' p c =
                 if String.eqb p x && String.eqb c y && negb (String.eqb x y)
                 then observe rating (edge t p c)
                 else edge t p c) /\
    (x = y \/ edge t x y <> [] ->
     map row_key (relations t') = map row_key (relations t)).
Proof.
  intros W Hx. unfold MarkovRatingSystem.feedPair.
  destruct (String.eqb_spec x y) as [E|E]; cbn [negb].
  - exists t. split; [apply runs_ret|]. split; [exact W|]. split; [reflexivity|].
    split; [|reflexivity].
    intros p c. rewrite andb_false_r. reflexivity.
  - destruct (Sql.join_child t x y) as [|r0 rest] eqn:Hxy.
    + eexists. split; [|split; [|split; [|split]]].
      5:{ intros [Exy|Ne]; [contradiction|]. exfalso. apply Ne. unfold edge.
          rewrite Hxy. reflexivity. }
      * eapply runs_bind; [apply runs_isChildOf|].
        rewrite Hxy. cbn [negb]. apply runs_addRelatedElement. reflexivity.
      * apply wf_insert_relation. exact W.
      * reflexivity.
      * intros p c. rewrite Hx. unfold edge.
        rewrite (join_child_insert _ _ _ _ _ _ _ _ _ (proj1 W) Hx).
        rewrite andb_true_r.
        destruct (String.eqb_spec p x) as [->|Ep]; cbn [andb]; [|apply f_equal, app_nil_r].
        destruct (String.eqb_spec c y) as [->|Ec]; [|apply f_equal, app_nil_r].
        rewrite Hxy. reflexivity.
    + eexists. split; [|split; [|split; [|split]]].
      5:{ intros _. apply update_keys. apply plus_keeps_key. }
      * eapply runs_bind; [apply runs_isChildOf|].
        rewrite Hxy. cbn [negb]. apply runs_incrementChild. reflexivity.
      * apply wf_update; [apply plus_keeps_key | exact W].
      * reflexivity.
      * intros p c. unfold edge.
        rewrite (join_child_update _ _ _ _ _ _ (plus_keeps_key 1 rating (rmul rating rating))
                   (proj1 W)).
        rewrite andb_true_r.
        destruct (String.eqb_spec p x) as [->|Ep]; cbn [andb]; [|reflexivity].
        destruct (String.eqb_spec c y) as [->|Ec]; [|reflexivity].
        rewrite Hxy. reflexivity.
Qed.

Lemma observe_nonempty (rating : R) (e : list (stats R)) : observe rating e <> [].
Proof. destruct e as [|[[n s] q] rest]; discriminate. Qed.

Lemma iter_observe_nonempty (rating : R) (k : nat) (e : list (stats R)) :
  e <> [] -> Nat.iter k (observe rating) e <> [].
Proof. intros H. destruct k; [exact H | apply observe_nonempty]. Qed.

Lemma count_occ_cons_eqb (y c : string) (ys : list string) :
  count_occ string_dec (y :: ys) c =
  if String.eqb c y then S (count_occ string_dec ys c) else count_occ string_dec ys c.
Proof.
  simpl. destruct (string_dec y c) as [E|E], (String.eqb_spec c y) as [E'|E'];
    congruence.
Qed.

(** The inner loop, for a registered [x]. *)
Lemma inner_loop_spec (rating : R) (x : string) (ys : list string) :
  forall (t : tables R) (i : Z),
  wf t -> root_id t x = Some i ->
  exists t',
    runs (for_each ys (MarkovRatingSystem.feedPair rating x)) t tt t' /\
    wf t' /\
    elements t' = elements t /\
    (forall p c, edge t' p c =
                 if String.eqb p x && negb (String.eqb c x)
                 then Nat.iter (count_occ string_dec ys c) (observe rating) (edge t p c)
                 else edge t p c) /\
    ((forall y, In y ys -> x = y \/ edge t x y <> []) ->
     map row_key (relations t') = map row_key (relations t)).
Proof.
  induction ys as [|y ys IH]; intros t i W Hx.
  - exists t. split; [apply runs_ret|]. split; [exact W|]. split; [reflexivity|].
    split; [|reflexivity].
    intros p c. simpl. destruct (_ && _); reflexivity.
  - destruct (feedPair_spec rating x y t i W Hx) as [t1 [R1 [W1 [E1 [H1 K1]]]]].
    assert (root_id t1 x = Some i) as Hx1 by (rewrite (root_id_same_elements _ _ _ E1); exact Hx).
    destruct (IH t1 i W1 Hx1) as [t2 [R2 [W2 [E2 [H2 K2]]]]].
    exists t2. split; [|split; [exact W2|split; [congruence|split]]].
    3:{ intros Hall. rewrite K2, K1; [reflexivity| |].
        - apply Hall. left; reflexivity.
        - intros y' Hy'. destruct (Hall y' (or_intror Hy')) as [Ex|Ne]; [left; exact Ex|].
          right. rewrite H1. destruct (_ && _); [apply observe_nonempty|exact Ne]. }
    + cbn [for_each]. eapply runs_bind; eassumption.
    + intros p c. rewrite H2, H1, count_occ_cons_eqb.
      destruct (String.eqb_spec p x) as [->|Ep]; cbn [andb]; [|reflexivity].
      destruct (String.eqb_spec c x) as [->|Ec]; cbn [negb].
      * destruct (String.eqb_spec x y); reflexivity.
      * destruct (String.eqb_spec c y) as [->|Ecy]; cbn [andb]; [|reflexivity].
        destruct (String.eqb_spec x y) as [Exy|Exy]; [congruence|]. cbn [negb].
        rewrite Nat.iter_succ_r. reflexivity.
Qed.

(** The outer loop over [xs], its inner loop running over the whole line. *)
Lemma outer_loop_spec (rating : R) (line xs : list string) :
  forall t : tables R,
  wf t ->
  exists t',
    runs (for_each xs (fun x =>
            bind (MarkovRatingSystem.isRootElement x) (fun known =>
            bind (if negb known then MarkovRatingSystem.addNewRootElement x else ret tt)
                 (fun _ => for_each line (fun y => MarkovRatingSystem.feedPair rating x y)))))
         t tt t' /\
    wf t' /\
    (forall p c, edge t' p c =
                 if String.eqb p c then edge t p c
                 else Nat.iter (count_occ string_dec xs p * count_occ string_dec line c)
                               (observe rating) (edge t p c)) /\
    (forall p, root_id t' p <> None <-> (root_id t p <> None \/ In p xs)) /\
    ((forall x, In x xs -> root_id t x <> None) -> elements t' = elements t) /\
    ((forall x y, In x xs -> In y line -> x = y \/ edge t x y <> []) ->
     map row_key (relations t') = map row_key (relations t)).
Proof.
  induction xs as [|x xs IH]; intros t W.
  - exists t. split; [apply runs_ret|]. split; [exact W|]. split; [|split; [|split]].
    + intros p c. simpl. destruct (String.eqb p c); reflexivity.
    + intros p. simpl. tauto.
    + reflexivity.
    + reflexivity.
  - destruct (register_spec x t W) as [t1 [R1 [W1 [J1 [[i Hi] [Hr1 [Hs1 Hk1]]]]]]].
    destruct (inner_loop_spec rating x line t1 i W1 Hi) as [t2 [R2 [W2 [E2 [H2 K2]]]]].
    destruct (IH t2 W2) as [t3 [R3 [W3 [H3 [Hr3 [Hs3 K3]]]]]].
    exists t3. split; [|split; [exact W3|split; [|split; [|split]]]].
    5:{ intros Hall. rewrite K3, K2, Hk1; [reflexivity| |].
        - intros y Hy. rewrite (edge_same_join _ _ J1). apply Hall; [left; reflexivity|exact Hy].
        - intros x' y Hx' Hy. destruct (Hall x' y (or_intror Hx') Hy) as [Ex|Ne];
            [left; exact Ex|]. right. rewrite H2, (edge_same_join _ _ J1).
          destruct (_ && _); [apply iter_observe_nonempty|]; exact Ne. }
    + cbn [for_each]. eapply runs_bind; [|exact R3].
      eapply runs_bind; [apply runs_existsRootElement|].
      eapply runs_bind; [exact R1|exact R2].
    + intros p c. rewrite H3, H2, (edge_same_join _ _ J1), count_occ_cons_eqb.
      destruct (String.eqb_spec p c) as [->|Epc].
      * destruct (String.eqb c x); reflexivity.
      * destruct (String.eqb_spec p x) as [->|Epx]; cbn [andb]; [|reflexivity].
        destruct (String.eqb_spec c x) as [->|Ecx]; [congruence|]. cbn [negb].
        rewrite <- Nat.iter_add. f_equal. simpl. lia.
    + intros p. rewrite Hr3, (root_id_same_elements _ _ _ E2), Hr1. simpl.
      split; [intros [[H|H]|H]; auto | intros [H|[H|H]]; auto].
    + intros Hall. rewrite Hs3.
      * rewrite E2, Hs1; [reflexivity|]. apply Hall. left; reflexivity.
      * intros x' Hx'. rewrite (root_id_same_elements _ _ _ E2).
        apply Hr1. left. apply Hall. right; exact Hx'.
Qed.

(** [feedLine] on a well-formed store: it returns, and every pair of
    different names is observed once per meeting in the line. *)
Lemma feedLine_spec (rating : R) (line : list string) (t : tables R) :
  wf t ->
  exists t',
    runs (MarkovRatingSystem.feedLine rating line) t tt t' /\
    wf t' /\
    (forall p c, edge t' p c =
                 if String.eqb p c then edge t p c
                 else Nat.iter (meetings p c line) (observe rating) (edge t p c)) /\
    (forall p, root_id t' p <> None <-> (root_id t p <> None \/ In p line)) /\
    ((forall x, In x line -> root_id t x <> None) -> elements t' = elements t) /\
    ((forall x y, In x line -> In y line -> x = y \/ edge t x y <> []) ->
     map row_key (relations t') = map row_key (relations t)).
Proof. intros W. exact (outer_loop_spec rating line line t W). Qed.

Lemma feedLines_spec (lines : list (R * list string)) :
  forall t : tables R,
  wf t ->
  exists t',
    runs (MarkovRatingSystem.feedLines lines) t tt t' /\
    wf t' /\
    (forall p c, edge t' p c =
                 if String.eqb p c then edge t p c
                 else fold_left
                        (fun e line => Nat.iter (meetings p c (snd line))
                                                (observe (fst line)) e)
                        lines (edge t p c)) /\
    (forall p, root_id t' p <> None <->
               (root_id t p <> None \/ exists line, In line lines /\ In p (snd line))).
Proof.
  induction lines as [|[rating line] lines IH]; intros t W.
  - exists t. split; [apply runs_ret|]. split; [exact W|]. split.
    + intros p c. simpl. destruct (String.eqb p c); reflexivity.
    + intros p. split; [tauto|]. intros [H|[line [[] _]]]. exact H.
  - destruct (feedLine_spec rating line t W) as [t1 [R1 [W1 [H1 [Hr1 _]]]]].
    destruct (IH t1 W1) as [t2 [R2 [W2 [H2 Hr2]]]].
    exists t2. split; [|split; [exact W2|split]].
    + unfold MarkovRatingSystem.feedLines. cbn [for_each fst snd].
      eapply runs_bind; [exact R1|exact R2].
    + intros p c. rewrite H2, H1. cbn [fold_left fst snd].
      destruct (String.eqb p c); reflexivity.
    + intros p. rewrite Hr2, Hr1. split.
      * intros [[H|H]|[l [Hl Hp]]]; [left; exact H| |].
        -- right. exists (rating, line). split; [left; reflexivity|exact H].
        -- right. exists l. split; [right; exact Hl|exact Hp].
      * intros [H|[l [[<-|Hl] Hp]]]; [left; left; exact H| |].
        -- left. right. exact Hp.
        -- right. exists l. split; assumption.
Qed.

(** *** A new datastore *)

Lemma init_conn (database : tables R) : conn (init database) = no_tables.
Proof. reflexivity. Qed.

Lemma init_file (database : tables R) : file (init database) = no_tables.
Proof. reflexivity. Qed.

Lemma wf_no_tables : wf (@no_tables R).
Proof.
  split; [split; [|split]; constructor|]. intros r [].
Qed.

Lemma edge_no_tables (p c : string) : edge (@no_tables R) p c = [].
Proof. reflexivity. Qed.

(** The lines of a data set fed to a new datastore: every call returns,
    and the edges are those read off the lines. *)
Lemma fed_store (database : tables R) (lines : list (R * list string)) :
  exists t',
    returns (MarkovRatingSystem.feedLines lines) (init database) tt t' /\
    wf t' /\
    (forall p c, edge t' p c = if String.eqb p c then [] else edge_of_lines p c lines) /\
    (forall p line, In line lines -> In p (snd line) -> root_id t' p <> None).
Proof.
  destruct (feedLines_spec lines no_tables wf_no_tables) as [t' [R1 [W1 [H1 Hr1]]]].
  exists t'. split; [apply R1; apply init_conn|]. split; [exact W1|]. split.
  - intros p c. rewrite H1, edge_no_tables. reflexivity.
  - intros p line Hl Hp. apply Hr1. right. exists line. split; assumption.
Qed.

End Feeding.

(** ** What holds for every run of a method *)

Section EveryRun.
Context {R : Type} {ops : RealOps R}.
Variable P : DataModule.t R -> DataModule.t R -> Prop.
Hypothesis P_refl : forall dm, P dm dm.
Hypothesis P_trans : forall a b c, P a b -> P b c -> P a c.

Import DataModule.

Lemma every_ret (A : Type) (a : A) : every_run P (ret a).
Proof. intros dm. apply P_refl. Qed.

Lemma every_bind (A B : Type) (m : M R A) (k : A -> M R B) :
  every_run P m -> (forall a, every_run P (k a)) -> every_run P (bind m k).
Proof.
  intros Hm Hk dm. unfold bind. specialize (Hm dm).
  destruct (m dm) as [[a|e] dm1]; simpl in *; [|exact Hm].
  eapply P_trans; [exact Hm | apply Hk].
Qed.

Lemma every_for_each (A : Type) (xs : list A) (body : A -> M R unit) :
  (forall x, every_run P (body x)) -> every_run P (for_each xs body).
Proof.
  intros Hb. induction xs as [|x xs IH]; cbn [for_each].
  - apply every_ret.
  - apply every_bind; [apply Hb | intros _; exact IH].
Qed.

Lemma every_if (A : Type) (b : bool) (m1 m2 : M R A) :
  every_run P m1 -> every_run P m2 -> every_run P (if b then m1 else m2).
Proof. destruct b; auto. Qed.

End EveryRun.

Section Keeping.
Context {R : Type} {ops : RealOps R}.

Import DataModule.

Lemma keeps_rows_refl (t : tables R) : keeps_rows t t.
Proof. split; exists []; rewrite app_nil_r; reflexivity. Qed.

Lemma keeps_rows_trans (t1 t2 t3 : tables R) :
  keeps_rows t1 t2 -> keeps_rows t2 t3 -> keeps_rows t1 t3.
Proof.
  intros [[e1 E1] [r1 R1]] [[e2 E2] [r2 R2]]. split.
  - exists (e1 ++ e2). rewrite E2, E1, app_assoc. reflexivity.
  - exists (r1 ++ r2). rewrite R2, R1, app_assoc. reflexivity.
Qed.

Lemma same_file_refl (dm : t R) : same_file dm dm.
Proof. reflexivity. Qed.

Lemma same_file_trans (a b c : t R) : same_file a b -> same_file b c -> same_file a c.
Proof. unfold same_file. congruence. Qed.

Lemma conn_keeps_refl (dm : t R) : conn_keeps dm dm.
Proof. apply keeps_rows_refl. Qed.

Lemma conn_keeps_trans (a b c : t R) : conn_keeps a b -> conn_keeps b c -> conn_keeps a c.
Proof. apply keeps_rows_trans. Qed.

(** The statements the methods execute: none deletes a row. *)
Lemma keeps_insert_relation (name : string) (count : Z) (s q : R) (pid : option Z)
    (t : tables R) :
  keeps_rows t (Sql.insert_relation name count s q pid t).
Proof.
  split; simpl; [exists []; rewrite app_nil_r; reflexivity|].
  eexists. rewrite map_app. reflexivity.
Qed.

Lemma keeps_update_relations (assign : relation_row R -> relation_row R)
    (cid pid : option Z) (t : tables R) :
  (forall r, row_key (assign r) = row_key r) ->
  keeps_rows t (Sql.update_relations assign cid pid t).
Proof.
  intros K. split; [exists []; rewrite app_nil_r; reflexivity|].
  exists []. rewrite app_nil_r. apply update_keys. exact K.
Qed.

Lemma keeps_insert_element (name : string) (t t' : tables R) :
  Sql.insert_element name t = Ok t' -> keeps_rows t t'.
Proof.
  unfold Sql.insert_element. destruct (existsb _ _); [discriminate|].
  intros H; inversion H; subst. split; simpl.
  - eexists; reflexivity.
  - exists []; rewrite app_nil_r; reflexivity.
Qed.

(** Both relations hold for the steps of a method on the cursor. *)
Lemma same_file_execute_select (q : tables R -> list (list (sqlval R))) :
  every_run same_file (execute_select q).
Proof. intros dm. reflexivity. Qed.

Lemma same_file_execute_write (bound : list Z) (u : tables R -> tables R) :
  every_run same_file (execute_write bound u).
Proof. intros dm. unfold execute_write. destruct (forallb _ _); reflexivity. Qed.

Lemma same_file_execute_checked (u : tables R -> outcome (tables R)) :
  every_run same_file (execute_checked u).
Proof. intros dm. unfold execute_checked. destruct (u (conn dm)); reflexivity. Qed.

Lemma same_file_fetchone : every_run same_file (@fetchone R).
Proof. intros dm. unfold fetchone. destruct (cur dm); reflexivity. Qed.

Lemma same_file_fetchall : every_run same_file (@fetchall R).
Proof. intros dm. reflexivity. Qed.

Lemma conn_keeps_execute_select (q : tables R -> list (list (sqlval R))) :
  every_run conn_keeps (execute_select q).
Proof. intros dm. apply keeps_rows_refl. Qed.

Lemma conn_keeps_execute_write (bound : list Z) (u : tables R -> tables R) :
  (forall t, keeps_rows t (u t)) -> every_run conn_keeps (execute_write bound u).
Proof.
  intros H dm. unfold execute_write, conn_keeps.
  destruct (forallb _ _); [apply H | apply keeps_rows_refl].
Qed.

Lemma conn_keeps_execute_checked (name : string) :
  every_run (@conn_keeps R) (execute_checked (Sql.insert_element name)).
Proof.
  intros dm. unfold execute_checked.
  destruct (Sql.insert_element name (conn dm)) eqn:E; simpl.
  - eapply keeps_insert_element; exact E.
  - apply keeps_rows_refl.
Qed.

Lemma conn_keeps_fetchone : every_run conn_keeps (@fetchone R).
Proof. intros dm. unfold fetchone. destruct (cur dm); apply keeps_rows_refl. Qed.

Lemma conn_keeps_fetchall : every_run conn_keeps (@fetchall R).
Proof. intros dm. apply keeps_rows_refl. Qed.

Lemma conn_keeps_commit : every_run conn_keeps (@commit R).
Proof. intros dm. apply keeps_rows_refl. Qed.

End Keeping.

(** A method is a composition of the steps above. *)
Ltac same_file_steps :=
  repeat first
    [ apply (every_ret same_file same_file_refl)
    | apply same_file_execute_select
    | apply same_file_execute_write
    | apply same_file_execute_checked
    | apply same_file_fetchone
    | apply same_file_fetchall
    | apply (every_if same_file)
    | apply (every_for_each same_file same_file_refl same_file_trans); intros ?
    | apply (every_bind same_file same_file_trans); [|intros ?] ].

Ltac conn_keeps_steps :=
  repeat first
    [ apply (every_ret conn_keeps conn_keeps_refl)
    | apply conn_keeps_execute_select
    | apply conn_keeps_execute_checked
    | apply conn_keeps_fetchone
    | apply conn_keeps_fetchall
    | apply conn_keeps_commit
    | apply conn_keeps_execute_write; intros ?;
      first [ apply keeps_insert_relation
            | apply keeps_update_relations; intros ?; reflexivity ]
    | apply (every_if conn_keeps)
    | apply (every_for_each conn_keeps conn_keeps_refl conn_keeps_trans); intros ?
    | apply (every_bind conn_keeps conn_keeps_trans); [|intros ?] ].

Section Calls.
Context {R : Type} {ops : RealOps R}.

Import DataModule.

Lemma same_file_feedLine (rating : R) (line : list string) :
  every_run same_file (MarkovRatingSystem.feedLine rating line).
Proof.
  unfold MarkovRatingSystem.feedLine, MarkovRatingSystem.feedPair,
    MarkovRatingSystem.isRootElement, MarkovRatingSystem.addNewRootElement,
    MarkovRatingSystem.isChildOf, MarkovRatingSystem.addRelatedElement,
    MarkovRatingSystem.incrementRelatedBoth,
    existsRootElement, addRootElement, getChildren, addRelatedElement, incrementChild,
    getRootElementId, getChildId, fetch_int.
  same_file_steps.
Qed.

Lemma conn_keeps_perform (c : call) :
  c <> CreateTables -> every_run conn_keeps (perform c).
Proof.
  intros H. destruct c; try congruence; unfold perform, discard,
    MarkovRatingSystem.feedLine, MarkovRatingSystem.feedPair,
    MarkovRatingSystem.isRootElement, MarkovRatingSystem.addNewRootElement,
    MarkovRatingSystem.isChildOf, MarkovRatingSystem.addRelatedElement,
    MarkovRatingSystem.incrementRelatedBoth,
    existsRootElement, getRootElementId, getChildren, existsChildElement,
    addRootElement, addRelatedElement, getChildId, updateChild, updateChildCount,
    updateChildRating, incrementChild, computeRating, fetch_int;
    conn_keeps_steps.
Qed.

Lemma same_file_perform (c : call) :
  c <> Commit -> c <> CreateTables -> every_run same_file (perform c).
Proof.
  intros H H'. destruct c; try congruence; unfold perform, discard,
    MarkovRatingSystem.feedLine, MarkovRatingSystem.feedPair,
    MarkovRatingSystem.isRootElement, MarkovRatingSystem.addNewRootElement,
    MarkovRatingSystem.isChildOf, MarkovRatingSystem.addRelatedElement,
    MarkovRatingSystem.incrementRelatedBoth,
    existsRootElement, getRootElementId, getChildren, existsChildElement,
    addRootElement, addRelatedElement, getChildId, updateChild, updateChildCount,
    updateChildRating, incrementChild, computeRating, fetch_int;
    same_file_steps.
Qed.

Lemma conn_keeps_perform_all (cs : list call) (dm : t R) :
  ~ In CreateTables cs ->
  keeps_rows (conn dm) (conn (perform_all cs dm)).
Proof.
  revert dm. induction cs as [|c cs IH]; intros dm N; cbn [perform_all].
  - apply keeps_rows_refl.
  - eapply keeps_rows_trans.
    + apply (conn_keeps_perform c). intros ->. apply N. left; reflexivity.
    + apply IH. intros H. apply N. right; exact H.
Qed.

Lemma create_tables_empties (dm : t R) :
  create_tables dm = (Ok tt, mk no_tables no_tables []).
Proof. reflexivity. Qed.

Lemma call_cases (c : @call R) :
  {c = CreateTables} + {c = Commit} + {c <> CreateTables /\ c <> Commit}.
Proof.
  destruct c; try (right; split; discriminate); [left; left | left; right]; reflexivity.
Qed.

(** What is committed is part of what the connection sees: true of a new
    datastore, and kept by every call. *)
Lemma file_behind_perform (c : call) (dm : t R) :
  keeps_rows (file dm) (conn dm) ->
  keeps_rows (file (snd (perform c dm))) (conn (snd (perform c dm))) /\
  (c <> CreateTables -> keeps_rows (file dm) (file (snd (perform c dm)))).
Proof.
  intros H. destruct (call_cases c) as [[->| ->]|[Hc Hc']].
  - simpl. split; [apply keeps_rows_refl | congruence].
  - simpl. split; [apply keeps_rows_refl | intros _; exact H].
  - rewrite (same_file_perform c Hc' Hc dm). split; [|intros _; apply keeps_rows_refl].
    eapply keeps_rows_trans; [exact H | apply (conn_keeps_perform c Hc dm)].
Qed.

Lemma file_behind_perform_all (cs : list call) (dm : t R) :
  keeps_rows (file dm) (conn dm) ->
  keeps_rows (file (perform_all cs dm)) (conn (perform_all cs dm)).
Proof.
  revert dm. induction cs as [|c cs IH]; intros dm H; cbn [perform_all]; [exact H|].
  apply IH. exact (proj1 (file_behind_perform c dm H)).
Qed.

Lemma file_keeps_perform_all (cs : list call) (dm : t R) :
  ~ In CreateTables cs ->
  keeps_rows (file dm) (conn dm) ->
  keeps_rows (file dm) (file (perform_all cs dm)).
Proof.
  revert dm. induction cs as [|c cs IH]; intros dm N H; cbn [perform_all].
  - apply keeps_rows_refl.
  - destruct (file_behind_perform c dm H) as [H1 H2].
    eapply keeps_rows_trans.
    + apply H2. intros ->. apply N. left; reflexivity.
    + apply IH; [|exact H1]. intros Hin. apply N. right; exact Hin.
Qed.

End Calls.

(** ** Observations add up *)

Section Observations.
Context {R : Type} {ops : RealOps R}.

Lemma counted_observe (rating : R) (n : nat) (e : list (stats R)) :
  counted n e -> counted (S n) (observe rating e).
Proof.
  destruct n as [|n]; simpl.
  - intros ->. simpl. eauto.
  - intros [s [q ->]]. cbn [observe]. do 2 eexists. f_equal. f_equal. f_equal. lia.
Qed.

Lemma counted_iter (rating : R) (m n : nat) (e : list (stats R)) :
  counted n e -> counted (m + n) (Nat.iter m (observe rating) e).
Proof.
  intros H. induction m as [|m IH]; [exact H|].
  cbn [Nat.iter plus]. apply counted_observe. exact IH.
Qed.

Lemma cooccurrences_cons (x y : string) (line : R * list string)
    (lines : list (R * list string)) :
  cooccurrences x y (line :: lines) =
  (meetings x y (snd line) + cooccurrences x y lines)%nat.
Proof. reflexivity. Qed.

Lemma counted_fold (x y : string) (lines : list (R * list string)) :
  forall (n : nat) (e : list (stats R)),
  counted n e ->
  counted (cooccurrences x y lines + n)
          (fold_left (fun e line => Nat.iter (meetings x y (snd line)) (observe (fst line)) e)
                     lines e).
Proof.
  induction lines as [|line lines IH]; intros n e H; [exact H|].
  cbn [fold_left]. rewrite cooccurrences_cons.
  replace (meetings x y (snd line) + cooccurrences x y lines + n)%nat
    with (cooccurrences x y lines + (meetings x y (snd line) + n))%nat by lia.
  apply IH. apply counted_iter. exact H.
Qed.

Lemma fold_observe_none (x y : string) (lines : list (R * list string))
    (e : list (stats R)) :
  cooccurrences x y lines = 0%nat ->
  fold_left (fun e line => Nat.iter (meetings x y (snd line)) (observe (fst line)) e)
            lines e = e.
Proof.
  revert e. induction lines as [|line lines IH]; intros e Z; [reflexivity|].
  rewrite cooccurrences_cons in Z. cbn [fold_left].
  replace (meetings x y (snd line)) with 0%nat by lia. apply IH. lia.
Qed.

Lemma counted_edge_of_lines (x y : string) (lines : list (R * list string)) :
  counted (cooccurrences x y lines) (edge_of_lines x y lines).
Proof.
  pose proof (counted_fold x y lines 0 [] eq_refl) as H.
  rewrite Nat.add_0_r in H. exact H.
Qed.

Lemma meetings_comm (x y : string) (line : list string) :
  meetings x y line = meetings y x line.
Proof. unfold meetings. apply Nat.mul_comm. Qed.

Lemma meetings_pos (x y : string) (line : list string) :
  In x line -> In y line -> (0 < meetings x y line)%nat.
Proof.
  intros Hx Hy. unfold meetings.
  apply (count_occ_In string_dec) in Hx, Hy. apply Nat.mul_pos_pos; lia.
Qed.

Lemma cooccurrences_pos (x y : string) (lines : list (R * list string))
    (line : R * list string) :
  In line lines -> In x (snd line) -> In y (snd line) ->
  (0 < cooccurrences x y lines)%nat.
Proof.
  intros Hl Hx Hy. induction lines as [|l lines IH]; [contradiction|].
  rewrite cooccurrences_cons. destruct Hl as [->|Hl].
  - pose proof (meetings_pos x y (snd line) Hx Hy). lia.
  - specialize (IH Hl). lia.
Qed.

Lemma edge_of_lines_sym (x y : string) (lines : list (R * list string)) :
  edge_of_lines x y lines = edge_of_lines y x lines.
Proof.
  unfold edge_of_lines. generalize (@nil (stats R)).
  induction lines as [|line lines IH]; intros e; [reflexivity|].
  cbn [fold_left]. rewrite (meetings_comm x y). apply IH.
Qed.

Lemma edge_single (t : tables R) (p c : string) (s : stats R) :
  edge t p c = [s] ->
  exists row, Sql.join_child t p c = [row] /\ row_stats row = s.
Proof.
  unfold edge. destruct (Sql.join_child t p c) as [|row [|row' rest]]; simpl;
    intros H; inversion H. eauto.
Qed.

Lemma edge_nil (t : tables R) (p c : string) :
  edge t p c = [] -> Sql.join_child t p c = [].
Proof. unfold edge. destruct (Sql.join_child t p c); [reflexivity|discriminate]. Qed.

Lemma counted_single (t : tables R) (p c : string) (n : nat) :
  counted (S n) (edge t p c) ->
  exists row, Sql.join_child t p c = [row] /\ r_count row = Z.of_nat (S n).
Proof.
  intros [s [q H]]. destruct (edge_single _ _ _ _ H) as [row [Hj Hs]].
  exists row. split; [exact Hj|]. unfold row_stats in Hs. congruence.
Qed.

Lemma counted_length (n : nat) (e : list (stats R)) : counted n e -> (length e <= 1)%nat.
Proof. destruct n; simpl; [intros ->|intros [s [q ->]]]; simpl; lia. Qed.

(** Exact addition: a second round of [k+1] observations adds the tally of
    the round. *)
Lemma iter_observe_tally (rating : R) (k : nat) :
  Nat.iter (S k) (observe rating) [] = [tally rating k].
Proof.
  induction k as [|k IH]; [reflexivity|].
  change (Nat.iter (S (S k)) (observe rating) [])
    with (observe rating (Nat.iter (S k) (observe rating) [])).
  rewrite IH. cbn [observe tally]. destruct (tally rating k) as [[n s] q]. reflexivity.
Qed.

Lemma iter_observe_add (rating : R) (k j : nat) :
  adds_exactly rating k -> (j <= k)%nat ->
  Nat.iter (S j) (observe rating) [tally rating k] =
  [(fst (fst (tally rating k)) + fst (fst (tally rating j)),
    radd (snd (fst (tally rating k))) (snd (fst (tally rating j))),
    radd (snd (tally rating k)) (snd (tally rating j)))].
Proof.
  intros A. induction j as [|j IH]; intros Hj.
  - cbn [Nat.iter]. destruct (tally rating k) as [[n s] q]. reflexivity.
  - change (Nat.iter (S (S j)) (observe rating) [tally rating k])
      with (observe rating (Nat.iter (S j) (observe rating) [tally rating k])).
    rewrite IH by lia. destruct (A j) as [As Aq]; [lia|].
    cbn [observe tally]. destruct (tally rating j) as [[n' s'] q'].
    cbn [fst snd] in *. rewrite As, Aq. do 3 f_equal. lia.
Qed.

Lemma tally_count (rating : R) (k : nat) : fst (fst (tally rating k)) = Z.of_nat (S k).
Proof.
  induction k as [|k IH]; [reflexivity|].
  cbn [tally]. destruct (tally rating k) as [[n s] q]. cbn [fst] in *. lia.
Qed.

End Observations.

(** ** The claims of the specification *)

Section Claims.
Context {R : Type} {ops : RealOps R}.

Import DataModule.

(** C1.  After the lines of a data set are fed to a new datastore, two
    different names that occur together in some line have exactly one
    relation row from the one to the other, and its count is the number of
    their meetings over all the lines, every occurrence of the one with
    every occurrence of the other; and no name has a relation to itself. *)
Theorem feedLine_counts_cooccurrences
    (database : tables R) (lines : list (R * list string)) (x y : string) :
  x <> y ->
  (exists line, In line lines /\ In x (snd line) /\ In y (snd line)) ->
  let run := MarkovRatingSystem.feedLines lines (init database) in
  fst run = Ok tt /\
  (exists row, Sql.join_child (conn (snd run)) x y = [row] /\
               r_count row = Z.of_nat (cooccurrences x y lines)) /\
  (forall z, Sql.join_child (conn (snd run)) z z = []).
Proof.
  intros Hxy [line [Hl [Hx Hy]]] run.
  destruct (fed_store database lines) as [t' [Rn [W [H _]]]].
  unfold run. rewrite (returns_fst _ _ _ _ _ Rn), (returns_conn _ _ _ _ _ Rn).
  split; [reflexivity|]. split.
  - pose proof (counted_edge_of_lines x y lines) as C.
    pose proof (cooccurrences_pos x y lines line Hl Hx Hy) as Pos.
    specialize (H x y). rewrite (proj2 (String.eqb_neq x y) Hxy) in H. rewrite <- H in C.
    destruct (cooccurrences x y lines) as [|n]; [lia|].
    apply counted_single. exact C.
  - intros z. apply edge_nil. rewrite H, String.eqb_refl. reflexivity.
Qed.

(** C3, as amended.  [feedLine] commits nothing: whatever the line, the
    database file is after the call what it was before, and the rows of the
    line wait in the transaction of the connection; the [commit] of the
    rating system then writes all that is pending at once. *)
Theorem feedLine_pending_until_commit (dm : t R) (rating : R) (line : list string) :
  let dm' := snd (MarkovRatingSystem.feedLine rating line dm) in
  file dm' = file dm /\
  file (snd (MarkovRatingSystem.commit dm')) = conn dm' /\
  conn (snd (MarkovRatingSystem.commit dm')) = conn dm'.
Proof.
  intros dm'. split; [apply same_file_feedLine|]. split; reflexivity.
Qed.

(** C4, as amended.  [addRelatedElement] knows no duplicate: with a count
    that can be bound (and a rating that can, a value of [R]) it returns
    and appends a relation row under the id of the parent, also when the
    parent already has a row for that name; the only failure is the
    OverflowError of a count outside the 64 bits, which stores nothing.  That a pair has at most one row is kept by [feedLine],
    which asks [isChildOf] before it creates: after any lines fed to a new
    datastore, no pair has two rows. *)
Theorem addRelatedElement_appends_unchecked :
  (forall (dm : t R) (parent name : string) (count : Z) (rating : R),
     let run := addRelatedElement parent name count rating dm in
     (Sql.int64 count = true ->
      fst run = Ok tt /\
      elements (conn (snd run)) = elements (conn dm) /\
      relations (conn (snd run)) =
        relations (conn dm) ++
        [mkRelation name (Sql.next_id (map (@r_id R) (relations (conn dm)))) count
                    rating (rmul rating rating) (root_id (conn dm) parent)]) /\
     (Sql.int64 count = false ->
      fst run = Raise OverflowError /\ conn (snd run) = conn dm)) /\
  (forall (database : tables R) (lines : list (R * list string)) (p c : string),
     (length (Sql.join_child
                (conn (snd (MarkovRatingSystem.feedLines lines (init database)))) p c)
      <= 1)%nat).
Proof.
  split.
  - intros dm parent name count rating run. split; intros I.
    + pose proof (returns_addRelatedElement parent name count rating dm I) as Rn.
      unfold run. rewrite (returns_fst _ _ _ _ _ Rn), (returns_conn _ _ _ _ _ Rn).
      repeat split.
    + pose proof (raises_addRelatedElement parent name count rating dm I) as Rn.
      unfold run. rewrite (raises_fst _ _ _ _ Rn), (raises_conn _ _ _ _ Rn).
      split; reflexivity.
  - intros database lines p c.
    destruct (fed_store database lines) as [t' [Rn [W [H _]]]].
    rewrite (returns_conn _ _ _ _ _ Rn).
    rewrite <- (length_map row_stats). fold (edge t' p c). rewrite H.
    destruct (String.eqb p c); [simpl; lia|].
    eapply counted_length. apply counted_edge_of_lines.
Qed.


(** C6, as amended.  Feeding again a line that was fed before gives every
    edge the same observations as any feeding of that line does, one per
    meeting of its names in the line, and changes nothing else: the
    elements, the ids, classes and parents of the relation rows, the edges
    of names that do not meet in the line and the file stay as they are.
    The statistics of an edge are doubled, [n], [s], [q] becoming [2*n],
    [s+s], [q+q], when its names meet in no other line that was fed and
    either meet once in the line, or meet more often and the additions of
    the second round do not round ([adds_exactly]); no law of the REAL
    arithmetic is assumed. *)
Theorem replay_repeats_observations
    (database : tables R) (before after : list (R * list string))
    (rating : R) (line : list string) :
  let dm0 := snd (MarkovRatingSystem.feedLines before (init database)) in
  let dm1 := snd (MarkovRatingSystem.feedLines (before ++ (rating, line) :: after)
                    (init database)) in
  let run := MarkovRatingSystem.feedLine rating line dm1 in
  let dm2 := snd run in
  fst run = Ok tt /\
  elements (conn dm2) = elements (conn dm1) /\
  map row_key (relations (conn dm2)) = map row_key (relations (conn dm1)) /\
  file dm2 = file dm1 /\
  (forall p c, p = c \/ meetings p c line = 0%nat ->
     edge (conn dm2) p c = edge (conn dm1) p c) /\
  (forall p c, p <> c ->
     edge (conn (snd (MarkovRatingSystem.feedLine rating line dm0))) p c =
       Nat.iter (meetings p c line) (observe rating) (edge (conn dm0) p c) /\
     edge (conn dm2) p c =
       Nat.iter (meetings p c line) (observe rating) (edge (conn dm1) p c)) /\
  (forall p c, p <> c -> meetings p c line = 1%nat ->
     cooccurrences p c before = 0%nat -> cooccurrences p c after = 0%nat ->
     edge (conn dm1) p c = [(1, rating, rmul rating rating)] /\
     edge (conn dm2) p c =
       [(2, radd rating rating, radd (rmul rating rating) (rmul rating rating))]) /\
  (forall p c k, p <> c -> meetings p c line = S k ->
     cooccurrences p c before = 0%nat -> cooccurrences p c after = 0%nat ->
     adds_exactly rating k ->
     exists n s q,
       edge (conn dm1) p c = [(n, s, q)] /\
       edge (conn dm2) p c = [(2 * n, radd s s, radd q q)]).
Proof.
  intros dm0 dm1 run dm2.
  destruct (fed_store database before) as [t0 [R0 [W0 _]]].
  assert (conn dm0 = t0) as E0 by (apply (returns_conn _ _ _ _ _ R0)).
  destruct (feedLine_spec rating line t0 W0) as [t0' [R0' [_ [H0' _]]]].
  specialize (R0' dm0 E0).
  destruct (fed_store database (before ++ (rating, line) :: after))
    as [t1 [R1 [W1 [H1 Hr1]]]].
  assert (conn dm1 = t1) as E1 by (apply (returns_conn _ _ _ _ _ R1)).
  destruct (feedLine_spec rating line t1 W1) as [t2 [R2 [W2 [H2 [_ [He2 Hk2]]]]]].
  specialize (R2 dm1 E1).
  assert (conn dm2 = t2) as E2 by (apply (returns_conn _ _ _ _ _ R2)).
  assert (In (rating, line) (before ++ (rating, line) :: after)) as Hin
    by (apply in_or_app; right; left; reflexivity).
  unfold run at 1. rewrite (returns_fst _ _ _ _ _ R2), E2, E1.
  rewrite (returns_conn _ _ _ _ _ R0'), E0.
  split; [reflexivity|]. split; [|split; [|split; [|split; [|split; [|split]]]]].
  - apply He2. intros x Hx. exact (Hr1 x (rating, line) Hin Hx).
  - apply Hk2. intros x y Hx Hy.
    destruct (String.eqb_spec x y) as [Exy|Exy]; [left; exact Exy|right].
    rewrite H1, (proj2 (String.eqb_neq x y) Exy).
    pose proof (counted_edge_of_lines x y (before ++ (rating, line) :: after)) as C.
    pose proof (cooccurrences_pos x y _ (rating, line) Hin Hx Hy) as Pos.
    destruct (cooccurrences x y (before ++ (rating, line) :: after)); [lia|].
    destruct C as [s [q ->]]. discriminate.
  - apply same_file_feedLine.
  - intros p c [->|Hz]; rewrite H2.
    + rewrite String.eqb_refl. reflexivity.
    + rewrite Hz. destruct (String.eqb p c); reflexivity.
  - intros p c Hpc. rewrite H2, H0', (proj2 (String.eqb_neq p c) Hpc). split; reflexivity.
  - intros p c Hpc M Zb Za.
    rewrite H2, H1, (proj2 (String.eqb_neq p c) Hpc).
    unfold edge_of_lines. rewrite fold_left_app. cbn [fold_left fst snd].
    rewrite (fold_observe_none p c before _ Zb), (fold_observe_none p c after _ Za).
    rewrite M. split; reflexivity.
  - intros p c k Hpc M Zb Za A.
    rewrite H2, H1, (proj2 (String.eqb_neq p c) Hpc).
    unfold edge_of_lines. rewrite fold_left_app. cbn [fold_left fst snd].
    rewrite (fold_observe_none p c before _ Zb), (fold_observe_none p c after _ Za).
    rewrite M, iter_observe_tally.
    pose proof (iter_observe_add rating k k A (le_n k)) as D.
    destruct (tally rating k) as [[n s] q] eqn:T.
    exists n, s, q. split; [reflexivity|].
    etransitivity; [exact D|]. cbn [fst snd]. do 3 f_equal. lia.
Qed.

(** C7.  Feeding a line to a datastore that was fed lines since it was
    made: two different names of the line get the same observations on
    both of their edges in that pass; afterwards every edge has the
    statistics of its reverse, and the two edges of the pair are two rows of
    [relations]. *)
Theorem feedLine_symmetric
    (database : tables R) (lines : list (R * list string))
    (rating : R) (line : list string) (x y : string) :
  x <> y -> In x line -> In y line ->
  let dm := snd (MarkovRatingSystem.feedLines lines (init database)) in
  let run := MarkovRatingSystem.feedLine rating line dm in
  let t' := conn (snd run) in
  fst run = Ok tt /\
  (0 < meetings x y line)%nat /\
  edge t' x y = Nat.iter (meetings x y line) (observe rating) (edge (conn dm) x y) /\
  edge t' y x = Nat.iter (meetings x y line) (observe rating) (edge (conn dm) y x) /\
  (forall p c, edge t' p c = edge t' c p) /\
  (exists rxy ryx,
     Sql.join_child t' x y = [rxy] /\ Sql.join_child t' y x = [ryx] /\
     row_stats rxy = row_stats ryx /\ r_id rxy <> r_id ryx).
Proof.
  intros Hxy Hx Hy dm run t'.
  destruct (fed_store database lines) as [t0 [R0 [W0 [H0 _]]]].
  assert (conn dm = t0) as E0 by (apply (returns_conn _ _ _ _ _ R0)).
  destruct (feedLine_spec rating line t0 W0) as [t1 [R1 [W1 [H1 _]]]].
  specialize (R1 dm E0).
  assert (t' = t1) as E1 by (apply (returns_conn _ _ _ _ _ R1)).
  pose proof (meetings_pos x y line Hx Hy) as Pos.
  assert (forall p c, edge t1 p c = edge t1 c p) as Sym.
  { intros p c. rewrite !H1, !H0, (String.eqb_sym c p), (meetings_comm c p),
      (edge_of_lines_sym c p).
    destruct (String.eqb_spec p c) as [->|]; reflexivity. }
  unfold run at 1. rewrite (returns_fst _ _ _ _ _ R1), E1, E0.
  split; [reflexivity|]. split; [exact Pos|].
  assert (String.eqb x y = false) as Nxy by (apply String.eqb_neq; exact Hxy).
  assert (String.eqb y x = false) as Nyx by (rewrite String.eqb_sym; exact Nxy).
  split; [rewrite H1, Nxy; reflexivity|].
  split; [rewrite H1, Nyx, (meetings_comm y x); reflexivity|].
  split; [exact Sym|].
  assert (counted (meetings x y line + cooccurrences x y lines) (edge t1 x y)) as C.
  { rewrite H1, Nxy, H0, Nxy. apply counted_iter. apply counted_edge_of_lines. }
  destruct (meetings x y line + cooccurrences x y lines)%nat as [|n] eqn:En; [lia|].
  destruct C as [s [q C]].
  destruct (edge_single _ _ _ _ C) as [rxy [Jxy Sxy]].
  pose proof C as C'. rewrite Sym in C'.
  destruct (edge_single _ _ _ _ C') as [ryx [Jyx Syx]].
  exists rxy, ryx. split; [exact Jxy|]. split; [exact Jyx|]. split; [congruence|].
  destruct W1 as [[Nc [Ne Nr]] _].
  assert (In rxy (Sql.join_child t1 x y)) as Ixy by (rewrite Jxy; left; reflexivity).
  assert (In ryx (Sql.join_child t1 y x)) as Iyx by (rewrite Jyx; left; reflexivity).
  destruct (join_child_In _ _ _ _ Nc Ixy) as [Hrxy [Cxy _]].
  destruct (join_child_In _ _ _ _ Nc Iyx) as [Hryx [Cyx _]].
  intros Eid. assert (rxy = ryx) by (eapply NoDup_map_eq; eauto). congruence.
Qed.

(** C8, as amended.  No call on a datastore or on its rating system other
    than [create_tables] deletes a row: after any such calls the connection
    still sees every element row as it was and every relation row with its
    id, class and parent, and so does the file after the commits among
    them.  [create_tables] drops the rows, on an existing datastore as in
    the constructor, which calls it: afterwards both tables are empty, in
    the file as well. *)
Theorem calls_keep_rows :
  (forall (calls : list call) (dm : t R),
     ~ In CreateTables calls ->
     keeps_rows (conn dm) (conn (perform_all calls dm))) /\
  (forall (database : tables R) (before calls : list call),
     ~ In CreateTables calls ->
     let dm := perform_all before (init database) in
     keeps_rows (file dm) (file (perform_all calls dm))) /\
  (forall dm : t R,
     fst (create_tables dm) = Ok tt /\
     conn (snd (create_tables dm)) = no_tables /\
     file (snd (create_tables dm)) = no_tables) /\
  (forall database : tables R,
     conn (init database) = no_tables /\ file (init database) = no_tables).
Proof.
  split; [exact conn_keeps_perform_all|]. split; [|split].
  - intros database before calls N dm.
    assert (keeps_rows (file (init database)) (conn (init database))) as H0
      by apply keeps_rows_refl.
    apply (file_keeps_perform_all calls _ N).
    apply file_behind_perform_all. exact H0.
  - intros dm. rewrite create_tables_empties. repeat split.
  - intros database. split; reflexivity.
Qed.


(** C10.  [existsChildElement] hands back [None], which is false as a
    truth value, whatever the parent and the child and whether or not the
    relation exists: the rows its SELECT found stay on the cursor, and the
    tables and the file are as before. *)
Theorem existsChildElement_returns_None (dm : t R) (parent child : string) :
  let run := existsChildElement parent child dm in
  fst run = Ok PyNone /\
  truthy (@PyNone R) = false /\
  cur (snd run) = Sql.select_relation child (root_id (conn dm) parent) (conn dm) /\
  conn (snd run) = conn dm /\
  file (snd run) = file dm.
Proof.
  unfold existsChildElement, getRootElementId, fetch_int, bind, execute_select, fetchone,
    ret, root_id, Sql.select_element_id.
  simpl. destruct (Sql.elements_where_class (conn dm) parent); simpl; repeat split.
Qed.

End Claims.

(** ** The claims on the data of [test1] *)

(** The last line of [test1] after the first: the relation from ["a"] to
    ["b"] has count 2, sum 1+10 and sum of squares 1+100. *)
Example test1_children_of_a :
  fst (DataModule.getChildren "a" store_ab) =
  Ok [[SqlText "b"; SqlInt 2; SqlReal 11; SqlReal 101];
      [SqlText "c"; SqlInt 1; SqlReal 1; SqlReal 1]].
Proof. reflexivity. Qed.

(** The fourth line of [test1] alone: one relation per ordered pair of its
    four names, each with count 1, sum 2 and sum of squares 4. *)
Example test1_fourth_line :
  let t := DataModule.conn
             (snd (MarkovRatingSystem.feedLine 2 ["d"; "b"; "c"; "e"] new_store)) in
  List.length (relations t) = 12%nat /\
  forallb (fun r => Z.eqb (r_count r) 1 && Z.eqb (r_rating_sum r) 2 &&
                    Z.eqb (r_rating_sum_squares r) 4) (relations t) = true.
Proof. vm_compute. split; reflexivity. Qed.


(** A count of 2^63 cannot be bound: [addRelatedElement] and
    [updateChildCount] raise OverflowError and the tables are as before;
    2^63 - 1 can. *)
Example count_outside_int64 :
  fst (DataModule.addRelatedElement "a" "b" (2 ^ 63) 1 store_ab) = Raise OverflowError /\
  DataModule.conn (snd (DataModule.addRelatedElement "a" "b" (2 ^ 63) 1 store_ab)) =
    DataModule.conn store_ab /\
  fst (DataModule.updateChildCount "a" "b" (2 ^ 63) store_ab) = Raise OverflowError /\
  fst (DataModule.addRelatedElement "a" "b" (2 ^ 63 - 1) 1 store_ab) = Ok tt.
Proof. vm_compute. repeat split. Qed.

(** C3 as stated fails: after [feedLine] the file of a new datastore has
    none of the rows the connection sees. *)
Example feedLine_commits_nothing :
  let dm' := snd (MarkovRatingSystem.feedLine 1 ["a"; "b"] new_store) in
  DataModule.file dm' = no_tables /\
  List.length (relations (DataModule.conn dm')) = 2%nat /\
  DataModule.file dm' <> DataModule.conn dm'.
Proof.
  vm_compute. split; [reflexivity|]. split; [reflexivity|]. discriminate.
Qed.

(** C4 as stated fails: ["a"] has a relation to ["b"], and
    [addRelatedElement] returns and leaves two. *)
Example addRelatedElement_twice :
  let run := DataModule.addRelatedElement "a" "b" 1 1 store_ab in
  edge (DataModule.conn store_ab) "a" "b" = [(2, 11, 101)] /\
  fst run = Ok tt /\
  edge (DataModule.conn (snd run)) "a" "b" = [(2, 11, 101); (1, 1, 1)].
Proof. vm_compute. repeat split. Qed.


(** C6 as stated fails: the line [(10, a b)] was fed after [(1, a b c)];
    fed again, it takes the edge from ["a"] to ["b"] from count 2 to 3, from
    sum 11 to 21 and from sum of squares 101 to 201. *)
Example replay_after_other_line :
  let dm2 := snd (MarkovRatingSystem.feedLine 10 ["a"; "b"] store_ab) in
  edge (DataModule.conn store_ab) "a" "b" = [(2, 11, 101)] /\
  edge (DataModule.conn dm2) "a" "b" = [(3, 21, 201)] /\
  ~ (exists n s q,
       edge (DataModule.conn store_ab) "a" "b" = [(n, s, q)] /\
       edge (DataModule.conn dm2) "a" "b" = [(2 * n, radd s s, radd q q)]).
Proof.
  vm_compute. split; [reflexivity|]. split; [reflexivity|].
  intros [n [s [q [H1 H2]]]]. inversion H1; subst. discriminate H2.
Qed.

(** C8 as stated fails: the committed database holds the element ["a"];
    a new [DataModule] on that database holds no element. *)
Example new_DataModule_drops_rows :
  let database := DataModule.file (snd (DataModule.commit store_ab)) in
  In (mkElement "a" 1) (elements database) /\
  elements (DataModule.file (DataModule.init database)) = [] /\
  relations (DataModule.file (DataModule.init database)) = [] /\
  ~ keeps_rows database (DataModule.file (DataModule.init database)).
Proof.
  vm_compute. split; [left; reflexivity|]. split; [reflexivity|]. split; [reflexivity|].
  intros [[more H] _]. discriminate H.
Qed.


(** C1 on [(5, a a b)]: the repeated ["a"] meets ["b"] twice. *)
Lemma feedLine_counts_cooccurrences_witness :
  let run := MarkovRatingSystem.feedLines [(5, ["a"; "a"; "b"])] (DataModule.init no_tables) in
  fst run = Ok tt /\
  (exists row, Sql.join_child (DataModule.conn (snd run)) "a" "b" = [row] /\
               r_count row = Z.of_nat (cooccurrences "a" "b" [(5, ["a"; "a"; "b"])])) /\
  (forall z, Sql.join_child (DataModule.conn (snd run)) z z = []).
Proof.
  apply (feedLine_counts_cooccurrences no_tables [(5, ["a"; "a"; "b"])] "a" "b").
  - discriminate.
  - exists (5, ["a"; "a"; "b"]). simpl. repeat split; auto 10.
Defined.

(** C4 on the relation from ["a"] to ["b"] of the example, which exists. *)
Lemma addRelatedElement_appends_unchecked_witness :
  let run := DataModule.addRelatedElement "a" "b" 1 1 store_ab in
  fst run = Ok tt /\
  elements (DataModule.conn (snd run)) = elements (DataModule.conn store_ab) /\
  relations (DataModule.conn (snd run)) =
    relations (DataModule.conn store_ab) ++
    [mkRelation "b" (Sql.next_id (map (@r_id Z) (relations (DataModule.conn store_ab)))) 1
                1 (rmul 1 1) (root_id (DataModule.conn store_ab) "a")].
Proof.
  apply (proj1 (proj1 addRelatedElement_appends_unchecked store_ab "a" "b" 1 1)).
  reflexivity.
Defined.


(** C6 on [(10, a a b)] fed twice to a new datastore: ["a"] meets ["b"]
    twice a round, and 20 + (10 + 10) is (20 + 10) + 10. *)
Lemma replay_repeats_observations_witness :
  let dm1 := snd (MarkovRatingSystem.feedLines [(10, ["a"; "a"; "b"])]
                    (DataModule.init no_tables)) in
  let dm2 := snd (MarkovRatingSystem.feedLine 10 ["a"; "a"; "b"] dm1) in
  exists n s q,
    edge (DataModule.conn dm1) "a" "b" = [(n, s, q)] /\
    edge (DataModule.conn dm2) "a" "b" = [(2 * n, radd s s, radd q q)].
Proof.
  pose proof (replay_repeats_observations no_tables [] [] 10 ["a"; "a"; "b"]) as H.
  cbv zeta in H. destruct H as [_ [_ [_ [_ [_ [_ [_ H]]]]]]].
  apply (H "a" "b" 1%nat).
  - discriminate.
  - reflexivity.
  - reflexivity.
  - reflexivity.
  - intros j Hj. assert (j = 0%nat) as -> by lia. vm_compute. split; reflexivity.
Defined.

(** C8 on the example, after a commit and one more line. *)
Lemma calls_keep_rows_witness :
  keeps_rows (DataModule.conn store_ab)
             (DataModule.conn (perform_all [Commit; FeedLine 3 ["d"; "a"]] store_ab)).
Proof.
  apply (proj1 calls_keep_rows [Commit; FeedLine 3 ["d"; "a"]] store_ab).
  simpl. intros [H|[H|[]]]; discriminate H.
Defined.

(** C7 on [(10, a b)] fed after [(1, a b c)]. *)
Lemma feedLine_symmetric_witness :
  let dm := snd (MarkovRatingSystem.feedLines [(1, ["a"; "b"; "c"])]
                   (DataModule.init no_tables)) in
  let run := MarkovRatingSystem.feedLine 10 ["a"; "b"] dm in
  let t' := DataModule.conn (snd run) in
  fst run = Ok tt /\
  (0 < meetings "a" "b" ["a"; "b"])%nat /\
  edge t' "a" "b" =
    Nat.iter (meetings "a" "b" ["a"; "b"]) (observe 10) (edge (DataModule.conn dm) "a" "b") /\
  edge t' "b" "a" =
    Nat.iter (meetings "a" "b" ["a"; "b"]) (observe 10) (edge (DataModule.conn dm) "b" "a") /\
  (forall p c, edge t' p c = edge t' c p) /\
  (exists rxy ryx,
     Sql.join_child t' "a" "b" = [rxy] /\ Sql.join_child t' "b" "a" = [ryx] /\
     row_stats rxy = row_stats ryx /\ r_id rxy <> r_id ryx).
Proof.
  apply (feedLine_symmetric no_tables [(1, ["a"; "b"; "c"])] 10 ["a"; "b"] "a" "b").
  - discriminate.
  - simpl. auto.
  - simpl. auto.
Defined.


(** * Further properties of the datastore and of the rating system *)

(** ** Every call of [feedLine] returns *)

Section AlwaysReturns.
Context {R : Type} {ops : RealOps R}.

Import DataModule.

Lemma runs_for_each_any (A : Type) (body : A -> M R unit) (xs : list A) :
  (forall x t, exists t', runs (body x) t tt t') ->
  forall t, exists t', runs (for_each xs body) t tt t'.
Proof.
  intros Hb. induction xs as [|x xs IH]; intros t.
  - exists t. apply runs_ret.
  - destruct (Hb x t) as [t1 R1]. destruct (IH t1) as [t2 R2].
    exists t2. cbn [for_each]. eapply runs_bind; eassumption.
Qed.

Lemma feedPair_runs (rating : R) (x y : string) (t : tables R) :
  exists t', runs (MarkovRatingSystem.feedPair rating x y) t tt t'.
Proof.
  unfold MarkovRatingSystem.feedPair. destruct (String.eqb x y); cbn [negb].
  - exists t. apply runs_ret.
  - destruct (Sql.join_child t x y) as [|r0 rest] eqn:Hxy; eexists;
      (eapply runs_bind; [apply runs_isChildOf|]); rewrite Hxy; cbn [negb].
    + apply runs_addRelatedElement. reflexivity.
    + apply runs_incrementChild. reflexivity.
Qed.

Lemma feedLine_runs (rating : R) (line : list string) (t : tables R) :
  exists t', runs (MarkovRatingSystem.feedLine rating line) t tt t'.
Proof.
  unfold MarkovRatingSystem.feedLine. apply runs_for_each_any. clear t.
  intros x t.
  assert (exists t1, runs (if negb (match root_id t x with Some _ => true | None => false end)
                           then MarkovRatingSystem.addNewRootElement x else ret tt) t tt t1)
    as [t1 R1].
  { destruct (root_id t x) eqn:Hx; cbn [negb]; eexists;
      [apply runs_ret | apply runs_addRootElement_new; exact Hx]. }
  destruct (runs_for_each_any _ (fun y => MarkovRatingSystem.feedPair rating x y) line
              (feedPair_runs rating x) t1) as [t2 R2].
  exists t2. eapply runs_bind; [apply runs_existsRootElement|].
  eapply runs_bind; eassumption.
Qed.

(** X1.  With a rating that can be bound (a value of [R]), [feedLine]
    returns on every datastore object, whatever its tables hold, and so
    does the loop of [test1] over any lines: the INSERT into [elements],
    the one statement a constraint can refuse, runs only after
    [existsRootElement] said that the name is not there, and the one integer
    it binds is the count 1. *)
Theorem feedLine_never_raises :
  (forall (dm : t R) (rating : R) (line : list string),
     fst (MarkovRatingSystem.feedLine rating line dm) = Ok tt) /\
  (forall (dm : t R) (lines : list (R * list string)),
     fst (MarkovRatingSystem.feedLines lines dm) = Ok tt).
Proof.
  split.
  - intros dm rating line. destruct (feedLine_runs rating line (conn dm)) as [t' H].
    exact (returns_fst _ _ _ _ _ (H dm eq_refl)).
  - intros dm lines.
    destruct (runs_for_each_any _ (fun l => MarkovRatingSystem.feedLine (fst l) (snd l)) lines
                (fun l t => feedLine_runs (fst l) (snd l) t) (conn dm)) as [t' H].
    exact (returns_fst _ _ _ _ _ (H dm eq_refl)).
Qed.

End AlwaysReturns.

(** ** Names: registration and lookups *)

Section Names.
Context {R : Type} {ops : RealOps R}.

Import DataModule.

Lemma root_id_after_insert (t : tables R) (x p : string) (i : Z) :
  root_id (mkTables (elements t ++ [mkElement x i]) (relations t)) p =
  match root_id t p with
  | Some j => Some j
  | None => if String.eqb p x then Some i else None
  end.
Proof.
  unfold root_id, Sql.elements_where_class. cbn [elements].
  rewrite filter_app. cbn [filter e_class]. rewrite (String.eqb_sym x p).
  destruct (filter _ (elements t)) as [|e rest]; [|reflexivity].
  destruct (String.eqb p x); reflexivity.
Qed.

Lemma exists_true_root (dm : t R) (name : string) :
  fst (existsRootElement name dm) = Ok true -> exists i, root_id (conn dm) name = Some i.
Proof.
  rewrite (returns_fst _ _ _ _ _ (returns_existsRootElement name dm)).
  destruct (root_id (conn dm) name) as [i|]; [eauto|discriminate].
Qed.

Lemma exists_false_root (dm : t R) (name : string) :
  fst (existsRootElement name dm) = Ok false -> root_id (conn dm) name = None.
Proof.
  rewrite (returns_fst _ _ _ _ _ (returns_existsRootElement name dm)).
  destruct (root_id (conn dm) name) as [i|]; [discriminate|reflexivity].
Qed.

Lemma join_children_unknown (t : tables R) (name : string) :
  root_id t name = None -> Sql.join_children t name = [].
Proof.
  unfold root_id, Sql.join_children.
  destruct (Sql.elements_where_class t name); [reflexivity|discriminate].
Qed.

(** X2.  [addRootElement] on a name that [existsRootElement] reports raises
    IntegrityError and leaves the tables and the file as they were, the
    cursor without rows.  On a name it does not report the call returns; afterwards [existsRootElement] says yes,
    [getRootElementId] returns the new id, which is above every id of the
    table, the ids of the other names are what they were, and no relation
    changed. *)
Theorem addRootElement_then_lookup (dm : t R) (name : string) :
  (fst (existsRootElement name dm) = Ok true ->
   addRootElement name dm = (Raise IntegrityError, mk (file dm) (conn dm) [])) /\
  (fst (existsRootElement name dm) = Ok false ->
   let dm' := snd (addRootElement name dm) in
   fst (addRootElement name dm) = Ok tt /\
   fst (existsRootElement name dm') = Ok true /\
   (exists i, fst (getRootElementId name dm') = Ok (Some i) /\
              forall e, In e (elements (conn dm)) -> e_id e < i) /\
   (forall other, other <> name ->
      fst (getRootElementId other dm') = fst (getRootElementId other dm)) /\
   relations (conn dm') = relations (conn dm)).
Proof.
  split.
  - intros H. destruct (exists_true_root dm name H) as [i Hi].
    unfold addRootElement, execute_checked. rewrite (insert_element_known _ _ _ Hi).
    reflexivity.
  - intros H dm'. pose proof (exists_false_root dm name H) as Hn.
    pose proof (runs_addRootElement_new name (conn dm) Hn dm eq_refl) as Rn.
    assert (conn dm' = mkTables (elements (conn dm) ++
                                   [mkElement name (Sql.next_id (map e_id (elements (conn dm))))])
                                (relations (conn dm))) as E
      by (apply (returns_conn _ _ _ _ _ Rn)).
    rewrite (returns_fst _ _ _ _ _ Rn). split; [reflexivity|].
    rewrite (returns_fst _ _ _ _ _ (returns_existsRootElement name dm')).
    rewrite (returns_fst _ _ _ _ _ (returns_getRootElementId name dm')).
    rewrite E, root_id_after_insert, Hn, String.eqb_refl.
    split; [reflexivity|]. split; [|split; [|reflexivity]].
    + eexists. split; [reflexivity|]. intros e He.
      apply next_id_above. apply in_map. exact He.
    + intros other Ho.
      rewrite (returns_fst _ _ _ _ _ (returns_getRootElementId other dm')).
      rewrite (returns_fst _ _ _ _ _ (returns_getRootElementId other dm)).
      rewrite E, root_id_after_insert.
      destruct (root_id (conn dm) other); [reflexivity|].
      rewrite (proj2 (String.eqb_neq other name) Ho). reflexivity.
Qed.

(** X3.  A name that is not in [elements] is no error for the lookups:
    [getRootElementId] returns [None], [getChildren] the empty list,
    [getChildId] [None] and [isChildOf] [False] for every child, and the
    SELECT of [computeRating] leaves NULL on the cursor. *)
Theorem lookups_of_unknown_name (dm : t R) (name : string) :
  fst (existsRootElement name dm) = Ok false ->
  fst (getRootElementId name dm) = Ok None /\
  fst (getChildren name dm) = Ok [] /\
  (forall child,
     fst (getChildId name child dm) = Ok None /\
     fst (MarkovRatingSystem.isChildOf name child dm) = Ok false) /\
  cur (snd (computeRating name dm)) = [[SqlNull]].
Proof.
  intros H. pose proof (exists_false_root dm name H) as Hn.
  pose proof (join_children_unknown _ _ Hn) as Hj.
  rewrite (returns_fst _ _ _ _ _ (returns_getRootElementId name dm)), Hn.
  rewrite (returns_fst _ _ _ _ _ (returns_getChildren name dm)).
  unfold Sql.select_children. rewrite Hj.
  split; [reflexivity|]. split; [reflexivity|]. split.
  - intros child.
    rewrite (returns_fst _ _ _ _ _ (returns_getChildId name child dm)).
    rewrite (returns_fst _ _ _ _ _ (runs_isChildOf name child (conn dm) dm eq_refl)).
    unfold child_id, Sql.join_child. rewrite Hj. split; reflexivity.
  - unfold computeRating, bind, execute_select, ret, Sql.select_rating. simpl.
    rewrite Hj. reflexivity.
Qed.

(** X4.  The test of [feedLine] and the lookup of [incrementChild] agree:
    [isChildOf] returns [True] exactly when [getChildId] returns an id, so
    the increment that follows a [True] has a row to update and the insert
    that follows a [False] duplicates none. *)
Theorem isChildOf_agrees_with_getChildId (dm : t R) (element relatedElement : string) :
  exists (related : bool) (found : option Z),
    fst (MarkovRatingSystem.isChildOf element relatedElement dm) = Ok related /\
    fst (getChildId element relatedElement dm) = Ok found /\
    (related = true <-> found <> None) /\
    (related = true <-> edge (conn dm) element relatedElement <> []).
Proof.
  rewrite (returns_fst _ _ _ _ _ (returns_getChildId element relatedElement dm)).
  rewrite (returns_fst _ _ _ _ _
             (runs_isChildOf element relatedElement (conn dm) dm eq_refl)).
  do 2 eexists. split; [reflexivity|]. split; [reflexivity|].
  unfold child_id, edge.
  destruct (Sql.join_child (conn dm) element relatedElement); simpl; split; split;
    congruence.
Qed.

(** X5.  [addRelatedElement] under a parent that is not in [elements],
    with a count within the 64 bits, returns all the same: it appends a
    row whose parent_id is NULL.  That row belongs to no one: the children
    of every name, as the join of [getChildren] shows them, are what they
    were. *)
Theorem addRelatedElement_unknown_parent
    (dm : t R) (parent name : string) (count : Z) (rating : R) :
  fst (existsRootElement parent dm) = Ok false ->
  Sql.int64 count = true ->
  let run := addRelatedElement parent name count rating dm in
  fst run = Ok tt /\
  relations (conn (snd run)) =
    relations (conn dm) ++
    [mkRelation name (Sql.next_id (map (@r_id R) (relations (conn dm)))) count
                rating (rmul rating rating) None] /\
  (forall p, fst (getChildren p (snd run)) = fst (getChildren p dm)).
Proof.
  intros H I run. pose proof (exists_false_root dm parent H) as Hn.
  pose proof (returns_addRelatedElement parent name count rating dm I) as Rn.
  rewrite Hn in Rn.
  unfold run. rewrite (returns_fst _ _ _ _ _ Rn).
  split; [reflexivity|]. split; [rewrite (returns_conn _ _ _ _ _ Rn); reflexivity|].
  intros p.
  rewrite (returns_fst _ _ _ _ _ (returns_getChildren p _)).
  rewrite (returns_fst _ _ _ _ _ (returns_getChildren p dm)).
  rewrite (returns_conn _ _ _ _ _ Rn).
  unfold Sql.select_children, Sql.join_children, Sql.elements_where_class.
  cbn [elements relations Sql.insert_relation].
  do 2 f_equal. apply flat_map_ext. intros e.
  rewrite filter_app. cbn [filter r_parent_id Sql.eq_int]. apply app_nil_r.
Qed.

End Names.

(** ** The UPDATE methods *)

Section Updates.
Context {R : Type} {ops : RealOps R}.

Import DataModule.

Lemma count_keeps_key (increment : Z) (r : relation_row R) :
  row_key (Sql.set_count_plus increment r) = row_key r.
Proof. reflexivity. Qed.

Lemma rating_keeps_key (rating squared : R) (r : relation_row R) :
  row_key (Sql.set_rating_plus rating squared r) = row_key r.
Proof. reflexivity. Qed.

(** An UPDATE that assigns no key column maps the rows of every join. *)
Lemma join_child_update_map (assign : relation_row R -> relation_row R)
    (cid pid : option Z) (t : tables R) (p c : string) :
  (forall r, row_key (assign r) = row_key r) ->
  Sql.join_child (Sql.update_relations assign cid pid t) p c =
  map (fun r => if Sql.eq_int (Some (r_id r)) cid && Sql.eq_int (r_parent_id r) pid
                then assign r else r)
      (Sql.join_child t p c).
Proof.
  intros K.
  set (g := fun r : relation_row R =>
              if Sql.eq_int (Some (r_id r)) cid && Sql.eq_int (r_parent_id r) pid
              then assign r else r).
  assert (forall r, row_key (g r) = row_key r) as Kg
    by (intros r; unfold g; destruct (_ && _); [apply K | reflexivity]).
  unfold Sql.join_child, Sql.join_children, Sql.elements_where_class.
  cbn [elements relations Sql.update_relations]. fold g.
  induction (filter (fun e => String.eqb (e_class e) p) (elements t)) as [|e es IH];
    [reflexivity|].
  cbn [flat_map]. rewrite !filter_app, map_app, IH. f_equal.
  rewrite !filter_map_swap. f_equal.
  rewrite (filter_ext (fun a => String.eqb (r_class (g a)) c)
                      (fun a => String.eqb (r_class a) c)).
  2:{ intros a. specialize (Kg a). unfold row_key in Kg. congruence. }
  f_equal. apply filter_ext.
  intros a. specialize (Kg a). unfold row_key in Kg. congruence.
Qed.

Lemma child_id_update (assign : relation_row R -> relation_row R)
    (cid pid : option Z) (t : tables R) (p c : string) :
  (forall r, row_key (assign r) = row_key r) ->
  child_id (Sql.update_relations assign cid pid t) p c = child_id t p c.
Proof.
  intros K. unfold child_id. rewrite (join_child_update_map _ _ _ _ _ _ K).
  destruct (Sql.join_child t p c) as [|r0 rest]; [reflexivity|].
  cbn [map hd_error option_map]. f_equal.
  destruct (_ && _); [|reflexivity].
  specialize (K r0). unfold row_key in K. congruence.
Qed.

Lemma update_twice (a1 a2 : relation_row R -> relation_row R)
    (cid pid : option Z) (t : tables R) :
  (forall r, row_key (a1 r) = row_key r) ->
  Sql.update_relations a2 cid pid (Sql.update_relations a1 cid pid t) =
  Sql.update_relations (fun r => a2 (a1 r)) cid pid t.
Proof.
  intros K. unfold Sql.update_relations. cbn [elements relations]. f_equal.
  rewrite map_map. apply map_ext. intros r.
  destruct (Sql.eq_int (Some (r_id r)) cid && Sql.eq_int (r_parent_id r) pid) eqn:C;
    [|rewrite C; reflexivity].
  specialize (K r). unfold row_key in K.
  replace (r_id (a1 r)) with (r_id r) by congruence.
  replace (r_parent_id (a1 r)) with (r_parent_id r) by congruence.
  rewrite C. reflexivity.
Qed.

Lemma returns_updateChildCount (parent child : string) (increment : Z) (dm : t R) :
  Sql.int64 increment = true ->
  returns (updateChildCount parent child increment) dm tt
          (Sql.update_relations (Sql.set_count_plus increment)
                                (child_id (conn dm) parent child)
                                (root_id (conn dm) parent) (conn dm)).
Proof. intros I. apply returns_update. apply int64_one. exact I. Qed.

Lemma raises_updateChildCount (parent child : string) (increment : Z) (dm : t R) :
  Sql.int64 increment = false ->
  raises (updateChildCount parent child increment) dm OverflowError.
Proof. intros I. apply raises_update. apply int64_none. exact I. Qed.

Lemma returns_updateChildRating (parent child : string) (rating : R) (dm : t R) :
  returns (updateChildRating parent child rating) dm tt
          (Sql.update_relations (Sql.set_rating_plus rating (rmul rating rating))
                                (child_id (conn dm) parent child)
                                (root_id (conn dm) parent) (conn dm)).
Proof. apply returns_update. reflexivity. Qed.

(** X6.  With a rating that can be bound (a value of [R]): incrementing the
    count and then updating the rating is incrementing both.  For an
    increment within the 64 bits, [incrementRelatedElementCount] followed by
    [updateRelatedElementRating] returns and leaves the tables and the file
    exactly as [incrementRelatedBoth] does, on every datastore, whether or
    not the relation exists; for an increment outside them both ways raise
    OverflowError at their first UPDATE and change nothing. *)
Theorem count_then_rating_is_both
    (dm : t R) (parent childName : string) (increment : Z) (rating : R) :
  let two := bind (MarkovRatingSystem.incrementRelatedElementCount parent childName increment)
                  (fun _ => MarkovRatingSystem.updateRelatedElementRating parent childName
                              rating) in
  let both := MarkovRatingSystem.incrementRelatedBoth parent childName increment rating in
  (Sql.int64 increment = true ->
   fst (two dm) = Ok tt /\
   fst (both dm) = Ok tt /\
   conn (snd (two dm)) = conn (snd (both dm)) /\
   file (snd (two dm)) = file (snd (both dm))) /\
  (Sql.int64 increment = false ->
   fst (two dm) = Raise OverflowError /\
   fst (both dm) = Raise OverflowError /\
   snd (two dm) = snd (both dm) /\
   conn (snd (both dm)) = conn dm).
Proof.
  intros two both. split; intros I.
  - pose proof (returns_incrementChild parent childName increment rating dm I) as Rb.
    assert (returns two dm tt
              (Sql.update_relations (Sql.set_all_plus increment rating (rmul rating rating))
                                    (child_id (conn dm) parent childName)
                                    (root_id (conn dm) parent) (conn dm))) as Rt.
    { unfold two, MarkovRatingSystem.incrementRelatedElementCount,
        MarkovRatingSystem.updateRelatedElementRating.
      eapply returns_bind; [apply returns_updateChildCount; exact I|].
      intros dm1 _ E1.
      pose proof (returns_updateChildRating parent childName rating dm1) as H.
      rewrite E1 in H.
      rewrite (child_id_update _ _ _ _ _ _ (count_keeps_key increment)) in H.
      rewrite (update_twice _ _ _ _ _ (count_keeps_key increment)) in H.
      exact H. }
    unfold both, MarkovRatingSystem.incrementRelatedBoth.
    rewrite (returns_fst _ _ _ _ _ Rt), (returns_fst _ _ _ _ _ Rb).
    rewrite (returns_conn _ _ _ _ _ Rt), (returns_conn _ _ _ _ _ Rb).
    rewrite (returns_file _ _ _ _ _ Rt), (returns_file _ _ _ _ _ Rb).
    repeat split.
  - pose proof (raises_incrementChild parent childName increment rating dm I) as Rb.
    pose proof (raises_updateChildCount parent childName increment dm I) as Rc.
    assert (raises two dm OverflowError) as Rt.
    { unfold raises, two, bind, MarkovRatingSystem.incrementRelatedElementCount.
      rewrite Rc. reflexivity. }
    unfold both, MarkovRatingSystem.incrementRelatedBoth.
    rewrite Rt, Rb. repeat split.
Qed.

(** X7.  On a pair that has no relation, [updateChild], [updateChildCount]
    and [updateChildRating] change no table, whatever they are passed:
    [getChildId] returns [None] and the UPDATE finds no row.  They return
    when the integer they bind is within the 64 bits ([updateChildRating]
    binds none); no error tells that the relation is missing. *)
Theorem updates_of_absent_edge
    (dm : t R) (parent child : string) (count increment : Z) (rating : R) :
  edge (conn dm) parent child = [] ->
  (conn (snd (updateChild parent child count rating dm)) = conn dm /\
   (Sql.int64 count = true -> fst (updateChild parent child count rating dm) = Ok tt)) /\
  (conn (snd (updateChildCount parent child increment dm)) = conn dm /\
   (Sql.int64 increment = true ->
    fst (updateChildCount parent child increment dm) = Ok tt)) /\
  (conn (snd (updateChildRating parent child rating dm)) = conn dm /\
   fst (updateChildRating parent child rating dm) = Ok tt).
Proof.
  intros E. apply edge_nil in E.
  assert (child_id (conn dm) parent child = None) as Hc
    by (unfold child_id; rewrite E; reflexivity).
  split; [|split].
  - destruct (Sql.int64 count) eqn:I.
    + pose proof (returns_updateChild parent child count rating dm I) as R1.
      rewrite Hc, update_nothing in R1.
      rewrite (returns_fst _ _ _ _ _ R1), (returns_conn _ _ _ _ _ R1). split; reflexivity.
    + pose proof (raises_updateChild parent child count rating dm I) as R1.
      rewrite (raises_conn _ _ _ _ R1). split; [reflexivity|discriminate].
  - destruct (Sql.int64 increment) eqn:I.
    + pose proof (returns_updateChildCount parent child increment dm I) as R1.
      rewrite Hc, update_nothing in R1.
      rewrite (returns_fst _ _ _ _ _ R1), (returns_conn _ _ _ _ _ R1). split; reflexivity.
    + pose proof (raises_updateChildCount parent child increment dm I) as R1.
      rewrite (raises_conn _ _ _ _ R1). split; [reflexivity|discriminate].
  - pose proof (returns_updateChildRating parent child rating dm) as R1.
    rewrite Hc, update_nothing in R1.
    rewrite (returns_fst _ _ _ _ _ R1), (returns_conn _ _ _ _ _ R1). split; reflexivity.
Qed.


End Updates.

(** ** What the calls keep *)

Section ReadOnly.
Context {R : Type} {ops : RealOps R}.

Import DataModule.

Lemma same_tables_refl (dm : t R) : same_tables dm dm.
Proof. split; reflexivity. Qed.

Lemma same_tables_trans (a b c : t R) :
  same_tables a b -> same_tables b c -> same_tables a c.
Proof. unfold same_tables. intros [H1 H2] [H3 H4]. split; congruence. Qed.

Lemma same_tables_execute_select (q : tables R -> list (list (sqlval R))) :
  every_run same_tables (execute_select q).
Proof. intros dm. split; reflexivity. Qed.

Lemma same_tables_fetchone : every_run same_tables (@fetchone R).
Proof. intros dm. unfold fetchone. destruct (cur dm); split; reflexivity. Qed.

Lemma same_tables_fetchall : every_run same_tables (@fetchall R).
Proof. intros dm. split; reflexivity. Qed.

End ReadOnly.

Ltac same_tables_steps :=
  repeat first
    [ apply (every_ret same_tables same_tables_refl)
    | apply same_tables_execute_select
    | apply same_tables_fetchone
    | apply same_tables_fetchall
    | apply (every_bind same_tables same_tables_trans); [|intros ?] ].

Section Invariants.
Context {R : Type} {ops : RealOps R}.

Import DataModule.

Lemma same_tables_query (c : call) :
  is_query c = true -> every_run same_tables (perform c).
Proof.
  intros H. destruct c; try discriminate H; unfold perform, discard,
    MarkovRatingSystem.isChildOf,
    existsRootElement, getRootElementId, getChildren, existsChildElement,
    getChildId, computeRating, fetch_int;
    same_tables_steps.
Qed.




(** Every call keeps the invariant of the tables. *)
Lemma wf_perform (c : call) (dm : t R) :
  wf (conn dm) -> wf (conn (snd (perform c dm))).
Proof.
  intros W.
  destruct (is_query c) eqn:Q.
  { rewrite (proj1 (same_tables_query c Q dm)). exact W. }
  destruct c; try discriminate Q; cbn [perform].
  - rewrite create_tables_empties. apply wf_no_tables.
  - destruct (root_id (conn dm) name) as [i|] eqn:Hx.
    + unfold addRootElement, execute_checked. rewrite (insert_element_known _ _ _ Hx).
      exact W.
    + rewrite (returns_conn _ _ _ _ _ (runs_addRootElement_new name (conn dm) Hx dm eq_refl)).
      exact (proj1 (register_new _ _ W Hx)).
  - destruct (Sql.int64 count) eqn:I.
    + rewrite (returns_conn _ _ _ _ _
                 (returns_addRelatedElement parent name count rating dm I)).
      apply wf_insert_relation. exact W.
    + rewrite (raises_conn _ _ _ _ (raises_addRelatedElement parent name count rating dm I)).
      exact W.
  - destruct (Sql.int64 count) eqn:I.
    + rewrite (returns_conn _ _ _ _ _ (returns_updateChild parent child count rating dm I)).
      apply wf_update; [apply set_keeps_key | exact W].
    + rewrite (raises_conn _ _ _ _ (raises_updateChild parent child count rating dm I)).
      exact W.
  - destruct (Sql.int64 increment) eqn:I.
    + rewrite (returns_conn _ _ _ _ _
                 (returns_updateChildCount parent child increment dm I)).
      apply wf_update; [apply count_keeps_key | exact W].
    + rewrite (raises_conn _ _ _ _ (raises_updateChildCount parent child increment dm I)).
      exact W.
  - rewrite (returns_conn _ _ _ _ _ (returns_updateChildRating parent child rating dm)).
    apply wf_update; [apply rating_keeps_key | exact W].
  - destruct (Sql.int64 increment) eqn:I.
    + rewrite (returns_conn _ _ _ _ _
                 (returns_incrementChild parent child increment rating dm I)).
      apply wf_update; [apply plus_keeps_key | exact W].
    + rewrite (raises_conn _ _ _ _
                 (raises_incrementChild parent child increment rating dm I)).
      exact W.
  - exact W.
  - destruct (feedLine_spec rating relationList (conn dm) W) as [t' [Rn [W' _]]].
    rewrite (returns_conn _ _ _ _ _ (Rn dm eq_refl)). exact W'.
Qed.

Lemma wf_perform_all (cs : list call) (dm : t R) :
  wf (conn dm) -> wf (conn (perform_all cs dm)).
Proof.
  revert dm. induction cs as [|c cs IH]; intros dm W; cbn [perform_all]; [exact W|].
  apply IH. apply wf_perform. exact W.
Qed.

(** X10.  Whatever calls are made on a datastore since its construction,
    in any order, failed ones included: no two elements have the same
    name, no two rows of a table have the same id, and the parent_id of
    every relation is NULL or the id of an element, although the schema
    does not enforce its foreign key. *)
Theorem calls_keep_tables_consistent (database : tables R) (calls : list call) :
  let t := conn (perform_all calls (init database)) in
  NoDup (map e_class (elements t)) /\
  NoDup (map e_id (elements t)) /\
  NoDup (map (@r_id R) (relations t)) /\
  (forall r, In r (relations t) ->
     r_parent_id r = None \/
     exists e, In e (elements t) /\ r_parent_id r = Some (e_id e)).
Proof.
  intros t.
  assert (wf t) as [[H1 [H2 H3]] H4]
    by (apply wf_perform_all; rewrite init_conn; apply wf_no_tables).
  tauto.
Qed.

End Invariants.

(** ** Ids are handed out in order *)

Section Ids.
Context {R : Type} {ops : RealOps R}.

Import DataModule.















End Ids.


Section IdsOfCalls.
Context {R : Type} {ops : RealOps R}.

Import DataModule.



End IdsOfCalls.

(** ** What a fed datastore holds *)

Section Fed.
Context {R : Type} {ops : RealOps R}.

Import DataModule.

Lemma root_id_known (t : tables R) (p : string) :
  root_id t p <> None <-> In p (map e_class (elements t)).
Proof.
  split.
  - destruct (root_id t p) as [i|] eqn:H; [intros _|congruence].
    apply root_id_In in H. apply in_map_iff. exists (mkElement p i). split; [reflexivity|exact H].
  - intros Hin H. apply in_map_iff in Hin. destruct Hin as [e [Hc He]].
    exact (root_id_None t p e H He Hc).
Qed.

Lemma in_lines (p : string) (lines : list (R * list string)) :
  In p (concat (map snd lines)) <-> exists line, In line lines /\ In p (snd line).
Proof.
  rewrite in_concat. split.
  - intros [l [Hl Hp]]. apply in_map_iff in Hl. destruct Hl as [line [<- Hl]]. eauto.
  - intros [line [Hl Hp]]. exists (snd line). split; [apply in_map; exact Hl|exact Hp].
Qed.

(** X12.  The elements of a datastore that was fed lines since it was made
    are the names of the lines, one row each: [existsRootElement] says yes
    exactly for the names that occur in a line, and [elements] has as many
    rows as the lines have different names. *)
Theorem elements_are_the_names_fed
    (database : tables R) (lines : list (R * list string)) :
  let dm := snd (MarkovRatingSystem.feedLines lines (init database)) in
  (forall p, fst (existsRootElement p dm) = Ok true <->
             exists line, In line lines /\ In p (snd line)) /\
  length (elements (conn dm)) = length (nodup string_dec (concat (map snd lines))).
Proof.
  intros dm.
  destruct (feedLines_spec lines no_tables wf_no_tables) as [t' [R1 [W1 [_ Hr1]]]].
  specialize (R1 (init database) (init_conn database)).
  assert (conn dm = t') as E by (apply (returns_conn _ _ _ _ _ R1)).
  assert (forall p, root_id t' p <> None <-> exists line, In line lines /\ In p (snd line))
    as Hreg.
  { intros p. rewrite Hr1. split; [intros [H|H]; [|exact H]|auto].
    exfalso. apply H. reflexivity. }
  split.
  - intros p. rewrite (returns_fst _ _ _ _ _ (returns_existsRootElement p dm)), E.
    rewrite <- Hreg. destruct (root_id t' p); split; congruence.
  - rewrite E, <- (length_map e_class). apply Permutation_length.
    apply NoDup_Permutation; [exact (proj1 (proj1 W1)) | apply NoDup_nodup |].
    intros p. rewrite nodup_In, in_lines, <- Hreg. symmetry. apply root_id_known.
Qed.

Lemma filter_class_nodup (l : list (relation_row R)) :
  (forall c, (length (filter (fun r => String.eqb (r_class r) c) l) <= 1)%nat) ->
  NoDup (map (@r_class R) l).
Proof.
  induction l as [|a l IH]; intros H; [constructor|].
  cbn [map]. constructor.
  - intros Hin. apply in_map_iff in Hin. destruct Hin as [b [Hb Hl]].
    specialize (H (r_class a)). cbn [filter] in H. rewrite String.eqb_refl in H.
    cbn [length] in H.
    assert (In b (filter (fun r => String.eqb (r_class r) (r_class a)) l)) as Hf
      by (apply filter_In; split; [exact Hl | apply String.eqb_eq; exact Hb]).
    destruct (filter _ l); [exact Hf | simpl in H; lia].
  - apply IH. intros c. specialize (H c). cbn [filter] in H.
    destruct (String.eqb (r_class a) c); simpl in H; lia.
Qed.

(** X13.  After lines were fed to a new datastore, [getChildren] of a name
    lists the names that share a line with it, each once and never the name
    itself. *)
Theorem children_are_the_names_met
    (database : tables R) (lines : list (R * list string)) (p : string) :
  let dm := snd (MarkovRatingSystem.feedLines lines (init database)) in
  exists rows,
    fst (getChildren p dm) = Ok (map children_cols rows) /\
    NoDup (map (@r_class R) rows) /\
    (forall c, In c (map (@r_class R) rows) <->
               (c <> p /\ (0 < cooccurrences p c lines)%nat)).
Proof.
  intros dm. destruct (fed_store database lines) as [t' [Rn [W [H _]]]].
  assert (conn dm = t') as E by (apply (returns_conn _ _ _ _ _ Rn)).
  exists (Sql.join_children t' p).
  rewrite (returns_fst _ _ _ _ _ (returns_getChildren p dm)), E.
  split; [reflexivity|].
  assert (forall c, counted (if String.eqb p c then 0 else cooccurrences p c lines)
                            (edge t' p c)) as C.
  { intros c. rewrite H. destruct (String.eqb p c); [reflexivity|].
    apply counted_edge_of_lines. }
  split.
  - apply filter_class_nodup. intros c. fold (Sql.join_child t' p c).
    rewrite <- (length_map row_stats). fold (edge t' p c).
    eapply counted_length. apply C.
  - intros c. specialize (C c).
    assert (In c (map (@r_class R) (Sql.join_children t' p)) <-> edge t' p c <> []) as ->.
    { unfold edge, Sql.join_child. split.
      - intros Hin. apply in_map_iff in Hin. destruct Hin as [r [Hc Hr]].
        assert (In r (filter (fun r => String.eqb (r_class r) c) (Sql.join_children t' p)))
          as Hf by (apply filter_In; split; [exact Hr | apply String.eqb_eq; exact Hc]).
        destruct (filter _ _); [contradiction|discriminate].
      - destruct (filter _ _) as [|r rest] eqn:F;
          [intros Hne; exfalso; apply Hne; reflexivity|]. intros _.
        assert (In r (filter (fun r => String.eqb (r_class r) c) (Sql.join_children t' p)))
          as Hf by (rewrite F; left; reflexivity).
        apply filter_In in Hf. destruct Hf as [Hr Hc]. apply String.eqb_eq in Hc.
        apply in_map_iff. exists r. split; assumption. }
    destruct (String.eqb_spec p c) as [->|Hpc].
    + simpl in C. rewrite C. split; [congruence|]. intros [Hc _]. congruence.
    + destruct (cooccurrences p c lines) as [|n].
      * simpl in C. rewrite C. split; [congruence|]. intros [_ Hc]. lia.
      * destruct C as [s [q ->]]. split; [|discriminate].
        intros _. split; [congruence|lia].
Qed.

End Fed.

(** ** A line without two different names *)

Section OneName.
Context {R : Type} {ops : RealOps R}.

Import DataModule.

Lemma every_for_each_in (P : t R -> t R -> Prop) (A : Type) (xs : list A)
    (body : A -> M R unit) :
  (forall dm, P dm dm) -> (forall a b c, P a b -> P b c -> P a c) ->
  (forall x, In x xs -> every_run P (body x)) -> every_run P (for_each xs body).
Proof.
  intros Prefl Ptrans Hb. induction xs as [|x xs IH]; cbn [for_each].
  - apply every_ret. exact Prefl.
  - apply every_bind; [exact Ptrans | apply Hb; left; reflexivity |].
    intros _. apply IH. intros y Hy. apply Hb. right; exact Hy.
Qed.

Lemma same_relations_refl (dm : t R) : same_relations dm dm.
Proof. reflexivity. Qed.

Lemma same_relations_trans (a b c : t R) :
  same_relations a b -> same_relations b c -> same_relations a c.
Proof. unfold same_relations. congruence. Qed.

(** X14.  A line that has no two different names, the empty line or one
    name any number of times, adds and changes no relation: [feedLine]
    returns and leaves [relations] and the file as they were; only
    [elements] can gain the name.  On the empty line the object is untouched. *)
Theorem line_of_one_name_adds_no_relation (dm : t R) (rating : R) (line : list string) :
  (forall a b, In a line -> In b line -> a = b) ->
  let run := MarkovRatingSystem.feedLine rating line dm in
  fst run = Ok tt /\
  relations (conn (snd run)) = relations (conn dm) /\
  file (snd run) = file dm /\
  (line = [] -> snd run = dm).
Proof.
  intros Hone run.
  destruct (feedLine_runs rating line (conn dm)) as [t' Rn]. specialize (Rn dm eq_refl).
  split; [exact (returns_fst _ _ _ _ _ Rn)|]. split; [|split].
  - unfold run, MarkovRatingSystem.feedLine.
    apply (every_for_each_in same_relations _ line _ same_relations_refl same_relations_trans).
    intros x Hx.
    apply (every_bind same_relations same_relations_trans).
    + intros d. unfold MarkovRatingSystem.isRootElement, existsRootElement, bind,
        execute_select, fetchone, ret. simpl.
      destruct (Sql.select_element x (conn d)); reflexivity.
    + intros known. apply (every_bind same_relations same_relations_trans).
      * apply every_if; [|apply every_ret; exact same_relations_refl].
        intros d. unfold MarkovRatingSystem.addNewRootElement, addRootElement,
          execute_checked, Sql.insert_element, same_relations.
        destruct (existsb _ _); reflexivity.
      * intros _.
        apply (every_for_each_in same_relations _ line _ same_relations_refl
                 same_relations_trans).
        intros y Hy. rewrite (Hone y x Hy Hx).
        unfold MarkovRatingSystem.feedPair. rewrite String.eqb_refl. cbn [negb].
        apply every_ret. exact same_relations_refl.
  - apply same_file_feedLine.
  - intros ->. reflexivity.
Qed.

End OneName.

(** ** What is stored stays *)

Section Staying.
Context {R : Type} {ops : RealOps R}.

Import DataModule.

Lemma root_id_kept (t t' : tables R) (name : string) (i : Z) :
  keeps_rows t t' -> root_id t name = Some i -> root_id t' name = Some i.
Proof.
  intros [[more E] _]. unfold root_id, Sql.elements_where_class. rewrite E, filter_app.
  destruct (filter _ (elements t)); [discriminate|]. intros H; exact H.
Qed.

Lemma related_iff (t : tables R) (p c : string) :
  Sql.join_child t p c <> [] <->
  exists e k, In e (elements t) /\ e_class e = p /\
              In k (map row_key (relations t)) /\
              snd (fst k) = c /\ snd k = Some (e_id e).
Proof.
  split.
  - destruct (Sql.join_child t p c) as [|r rest] eqn:J; [congruence|]. intros _.
    assert (In r (Sql.join_child t p c)) as Hr by (rewrite J; left; reflexivity).
    unfold Sql.join_child, Sql.join_children, Sql.elements_where_class in Hr.
    apply filter_In in Hr. destruct Hr as [Hr Hc]. apply String.eqb_eq in Hc.
    apply in_flat_map in Hr. destruct Hr as [e [He Hr]].
    apply filter_In in He, Hr. destruct He as [He Hp], Hr as [Hr Hi].
    apply String.eqb_eq in Hp.
    destruct (r_parent_id r) as [j|] eqn:Pj; simpl in Hi; [|discriminate].
    apply Z.eqb_eq in Hi. subst j.
    exists e, (row_key r). split; [exact He|]. split; [exact Hp|].
    split; [apply in_map; exact Hr|]. unfold row_key. simpl. split; congruence.
  - intros [e [k [He [Hp [Hk [Ec Ek]]]]]]. apply in_map_iff in Hk.
    destruct Hk as [r [Er Hr]].
    assert (In r (Sql.join_child t p c)) as Hin.
    { unfold Sql.join_child, Sql.join_children, Sql.elements_where_class.
      assert (r_class r = c) as E2 by (rewrite <- Ec, <- Er; reflexivity).
      assert (r_parent_id r = Some (e_id e)) as E3 by (rewrite <- Ek, <- Er; reflexivity).
      apply filter_In. split; [|apply String.eqb_eq; exact E2].
      apply in_flat_map. exists e. split.
      - apply filter_In. split; [exact He | apply String.eqb_eq; exact Hp].
      - apply filter_In. split; [exact Hr|]. rewrite E3. simpl. apply Z.eqb_refl. }
    intros J. rewrite J in Hin. exact Hin.
Qed.

(** X16.  A name keeps its id as long as the tables are not created anew:
    once [getRootElementId] returns an id for a name, it returns the same
    id after any further calls on the datastore other than
    [create_tables], failed ones included. *)
Theorem getRootElementId_is_stable
    (dm : t R) (calls : list call) (name : string) (i : Z) :
  ~ In CreateTables calls ->
  fst (getRootElementId name dm) = Ok (Some i) ->
  fst (getRootElementId name (perform_all calls dm)) = Ok (Some i).
Proof.
  intros N.
  rewrite (returns_fst _ _ _ _ _ (returns_getRootElementId name dm)).
  rewrite (returns_fst _ _ _ _ _ (returns_getRootElementId name (perform_all calls dm))).
  intros H. inversion H as [H']. rewrite H'. f_equal.
  exact (root_id_kept _ _ name i (conn_keeps_perform_all calls dm N) H').
Qed.

(** X17.  A relation does not go away as long as the tables are not created
    anew: once [isChildOf] says that a name is related to another, it says
    so after any further calls on the datastore other than [create_tables],
    and [getChildId] still finds a row. *)
Theorem isChildOf_is_stable
    (dm : t R) (calls : list call) (element relatedElement : string) :
  ~ In CreateTables calls ->
  fst (MarkovRatingSystem.isChildOf element relatedElement dm) = Ok true ->
  fst (MarkovRatingSystem.isChildOf element relatedElement (perform_all calls dm)) = Ok true /\
  exists id,
    fst (getChildId element relatedElement (perform_all calls dm)) = Ok (Some id).
Proof.
  intros NC.
  rewrite (returns_fst _ _ _ _ _
             (runs_isChildOf element relatedElement (conn dm) dm eq_refl)).
  rewrite (returns_fst _ _ _ _ _
             (runs_isChildOf element relatedElement _ (perform_all calls dm) eq_refl)).
  rewrite (returns_fst _ _ _ _ _
             (returns_getChildId element relatedElement (perform_all calls dm))).
  intros H.
  assert (Sql.join_child (conn dm) element relatedElement <> []) as N
    by (destruct (Sql.join_child (conn dm) element relatedElement); [discriminate|congruence]).
  apply related_iff in N. destruct N as [e [k [He [Hp [Hk [Ec Ek]]]]]].
  destruct (conn_keeps_perform_all calls dm NC) as [[me Ee] [mr Er]].
  assert (Sql.join_child (conn (perform_all calls dm)) element relatedElement <> []) as N'.
  { apply related_iff. exists e, k. split; [rewrite Ee; apply in_or_app; left; exact He|].
    split; [exact Hp|]. split; [rewrite Er; apply in_or_app; left; exact Hk|].
    split; assumption. }
  unfold child_id.
  destruct (Sql.join_child (conn (perform_all calls dm)) element relatedElement) as [|r rest];
    [congruence|].
  split; [reflexivity|]. eexists. reflexivity.
Qed.

End Staying.

(** ** The further properties on the data of [test1] *)

(** X2 on a new datastore: ["a"] is unknown, is added, and gets id 1. *)
Lemma addRootElement_then_lookup_witness :
  let dm' := snd (DataModule.addRootElement "a" new_store) in
  fst (DataModule.addRootElement "a" new_store) = Ok tt /\
  fst (DataModule.existsRootElement "a" dm') = Ok true /\
  (exists i, fst (DataModule.getRootElementId "a" dm') = Ok (Some i) /\
             forall e, In e (elements (DataModule.conn new_store)) -> e_id e < i) /\
  (forall other, other <> "a" ->
     fst (DataModule.getRootElementId other dm') =
     fst (DataModule.getRootElementId other new_store)) /\
  relations (DataModule.conn dm') = relations (DataModule.conn new_store).
Proof.
  exact (proj2 (addRootElement_then_lookup new_store "a") eq_refl).
Defined.

(** X3 on a new datastore. *)
Lemma lookups_of_unknown_name_witness :
  fst (DataModule.getRootElementId "a" new_store) = Ok None /\
  fst (DataModule.getChildren "a" new_store) = Ok [] /\
  (forall child,
     fst (DataModule.getChildId "a" child new_store) = Ok None /\
     fst (MarkovRatingSystem.isChildOf "a" child new_store) = Ok false) /\
  DataModule.cur (snd (DataModule.computeRating "a" new_store)) = [[SqlNull]].
Proof.
  apply (lookups_of_unknown_name new_store "a"). reflexivity.
Defined.

(** X5 on a new datastore. *)
Lemma addRelatedElement_unknown_parent_witness :
  let run := DataModule.addRelatedElement "a" "b" 1 1 new_store in
  fst run = Ok tt /\
  relations (DataModule.conn (snd run)) =
    relations (DataModule.conn new_store) ++
    [mkRelation "b" (Sql.next_id (map (@r_id Z) (relations (DataModule.conn new_store)))) 1
                1 (rmul 1 1) None] /\
  (forall p, fst (DataModule.getChildren p (snd run)) =
             fst (DataModule.getChildren p new_store)).
Proof.
  apply (addRelatedElement_unknown_parent new_store "a" "b" 1 1); reflexivity.
Defined.

(** X6 on the relation from ["a"] to ["b"] of the example. *)
Lemma count_then_rating_is_both_witness :
  DataModule.conn
    (snd (DataModule.bind (MarkovRatingSystem.incrementRelatedElementCount "a" "b" 3)
            (fun _ => MarkovRatingSystem.updateRelatedElementRating "a" "b" 5) store_ab)) =
  DataModule.conn (snd (MarkovRatingSystem.incrementRelatedBoth "a" "b" 3 5 store_ab)).
Proof.
  pose proof (count_then_rating_is_both store_ab "a" "b" 3 5) as H.
  cbv zeta in H. destruct H as [H _].
  destruct (H eq_refl) as [_ [_ [H' _]]]. exact H'.
Defined.

(** X7 on a new datastore. *)
Lemma updates_of_absent_edge_witness :
  (DataModule.conn (snd (DataModule.updateChild "a" "b" 7 5 new_store)) =
     DataModule.conn new_store /\
   (Sql.int64 7 = true -> fst (DataModule.updateChild "a" "b" 7 5 new_store) = Ok tt)) /\
  (DataModule.conn (snd (DataModule.updateChildCount "a" "b" 3 new_store)) =
     DataModule.conn new_store /\
   (Sql.int64 3 = true ->
    fst (DataModule.updateChildCount "a" "b" 3 new_store) = Ok tt)) /\
  (DataModule.conn (snd (DataModule.updateChildRating "a" "b" 5 new_store)) =
     DataModule.conn new_store /\
   fst (DataModule.updateChildRating "a" "b" 5 new_store) = Ok tt).
Proof.
  apply (updates_of_absent_edge new_store "a" "b" 7 3 5). reflexivity.
Defined.


(** X14 on the line [a a]. *)
Lemma line_of_one_name_adds_no_relation_witness :
  let run := MarkovRatingSystem.feedLine 5 ["a"; "a"] store_ab in
  fst run = Ok tt /\
  relations (DataModule.conn (snd run)) = relations (DataModule.conn store_ab) /\
  DataModule.file (snd run) = DataModule.file store_ab /\
  (["a"; "a"] = [] -> snd run = store_ab).
Proof.
  apply (line_of_one_name_adds_no_relation store_ab 5 ["a"; "a"]).
  intros a b Ha Hb. simpl in Ha, Hb.
  destruct Ha as [<-|[<-|[]]], Hb as [<-|[<-|[]]]; reflexivity.
Defined.

(** X16 and X17 on the example, after a commit and two more lines. *)
Lemma getRootElementId_is_stable_witness :
  fst (DataModule.getRootElementId "b"
         (perform_all [Commit; FeedLine 3 ["d"; "a"]; FeedLine 8 ["d"; "b"]] store_ab))
  = Ok (Some 2).
Proof.
  apply (getRootElementId_is_stable store_ab
           [Commit; FeedLine 3 ["d"; "a"]; FeedLine 8 ["d"; "b"]] "b" 2).
  - simpl. intros [H|[H|[H|[]]]]; discriminate H.
  - reflexivity.
Defined.

Lemma isChildOf_is_stable_witness :
  fst (MarkovRatingSystem.isChildOf "a" "c"
         (perform_all [Commit; UpdateChild "a" "c" 0 0; AddRootElement "a"] store_ab))
  = Ok true /\
  exists id,
    fst (DataModule.getChildId "a" "c"
           (perform_all [Commit; UpdateChild "a" "c" 0 0; AddRootElement "a"] store_ab))
    = Ok (Some id).
Proof.
  apply (isChildOf_is_stable store_ab
           [Commit; UpdateChild "a" "c" 0 0; AddRootElement "a"] "a" "c").
  - simpl. intros [H|[H|[H|[]]]]; discriminate H.
  - reflexivity.
Defined.
